(** * NetworkProcessor: virtual-network demands on a capacitated substrate

    A shallow embedding of [src/process_demand.py] (class
    [NetworkProcessor]), of the driver scenario of [src/main.py] and of the
    two utilizations of [src/metrics.py].

    Conventions of the embedding.
    - Python integers are [Z]. The adjacency matrix is an int64 array, as
      [np.array] makes it from the integers of [main.py]: a cell holds an
      integer of the int64 range, [a[i, j] -= v] raises [OverflowError]
      for a Python integer [v] outside that range and wraps around
      otherwise, and [np.sum] wraps around. Comparisons of a cell with a
      Python integer are exact.
    - The numpy 2-D array is the list of its rows; [a[i, j]] follows numpy's
      indexing along each axis (a negative index counts from the end,
      anything else out of range raises [IndexError]).
    - A method of the class is a computation of type [M A]: it receives the
      processor, and yields a returned value or a raised exception, the
      processor as the call leaves it, and the lines it printed.
    - The acceptance ratio, a quotient of two list lengths, is kept as the
      exact rational of which the Python float is the rounding. *)

From Stdlib Require Import ZArith List Lia QArith Sorted Permutation.
From stdpp Require Import base gmap list sorting.

Open Scope Z_scope.

#[local] Set Warnings "-clear-no-such-hyp".

(** ** Exceptions and results *)

Inductive exn := IndexError | AttributeError | TypeError | OverflowError.

Definition result (A : Type) : Type := (exn + A)%type.

Definition Ok {A} (a : A) : result A := inr a.
Definition Raise {A} (e : exn) : result A := inl e.

Definition bindR {A B} (r : result A) (k : A -> result B) : result B :=
  match r with
  | inl e => inl e
  | inr a => k a
  end.

Notation "x <-? r ;; k" := (bindR r (fun x => k))
  (at level 20, r at level 99, k at level 200, only parsing).

(** ** Python lists and numpy arrays *)

(** [l[i]] for an index produced by [range], hence never negative. *)
Definition getitem {A} (l : list A) (i : nat) : result A :=
  match l !! i with
  | Some x => Ok x
  | None => Raise IndexError
  end.

Abbreviation matrix := (list (list Z)).

Definition shape0 (a : matrix) : nat := length a.

(** numpy's treatment of one index along an axis of size [n]. *)
Definition norm_index (n : nat) (i : Z) : result nat :=
  if (0 <=? i) && (i <? Z.of_nat n) then Ok (Z.to_nat i)
  else if (- Z.of_nat n <=? i) && (i <? 0) then Ok (Z.to_nat (i + Z.of_nat n))
  else Raise IndexError.

(** [a[i, j]] *)
Definition np_get (a : matrix) (i j : Z) : result Z :=
  r <-? norm_index (length a) i ;;
  row <-? getitem a r ;;
  c <-? norm_index (length row) j ;;
  getitem row c.

(** [a[i, j] = v] *)
Definition np_set (a : matrix) (i j : Z) (v : Z) : result matrix :=
  r <-? norm_index (length a) i ;;
  row <-? getitem a r ;;
  c <-? norm_index (length row) j ;;
  Ok (<[r := <[c := v]> row]> a).

(** The int64 range, [-2^63 .. 2^63 - 1]. *)
Definition int64_min : Z := -9223372036854775808.
Definition int64_max : Z := 9223372036854775807.

Definition int64 (z : Z) : Prop := int64_min <= z <= int64_max.

Definition int64b (z : Z) : bool := (int64_min <=? z) && (z <=? int64_max).

(** The int64 value of an integer: wrap-around modulo [2^64]. *)
Definition wrap64 (z : Z) : Z :=
  (z - int64_min) mod 18446744073709551616 + int64_min.

(** [x - v] for an int64 scalar [x] and a Python integer [v] of the int64
    range. The lists of the model can hold an integer that no int64 array
    holds; from such an integer the difference is taken as it is. *)
Definition sub64 (x v : Z) : Z :=
  if int64b x then wrap64 (x - v) else x - v.

(** [a[i, j] -= v]: the cell is read, the Python integer is converted to
    int64 ([OverflowError] when it does not fit), the difference is
    written back. *)
Definition np_isub (a : matrix) (i j : Z) (v : Z) : result matrix :=
  old <-? np_get a i j ;;
  if int64b v then np_set a i j (sub64 old v)
  else Raise OverflowError.

(** [range(lo, hi)] over Python integers. *)
Definition range (lo hi : Z) : list Z :=
  map (fun i => lo + Z.of_nat i) (seq 0 (Z.to_nat (hi - lo))).

(** [sum(l)] *)
Definition sum (l : list Z) : Z := fold_left Z.add l 0.

(** ** itertools.permutations

    [permutations pool r] lists the [r]-length arrangements of the
    positions of [pool], in the order itertools emits them: the earliest
    position first, then recursively for the remaining positions. *)

(** Every way of taking one element out of a list, leftmost first. *)
Fixpoint picks {A} (l : list A) : list (A * list A) :=
  match l with
  | [] => []
  | x :: l' => (x, l') :: map (fun p => (fst p, x :: snd p)) (picks l')
  end.

Fixpoint permutations {A} (pool : list A) (r : nat) : list (list A) :=
  match r with
  | O => [[]]
  | S r' =>
      flat_map (fun p => map (cons (fst p)) (permutations (snd p) r'))
               (picks pool)
  end.

(** ** list.sort(key=...)

    Python's sort is stable; it is modelled by a stable insertion sort. *)

Section Sort.
Context {A : Type} (key : A -> Z).

Fixpoint insert_by (x : A) (l : list A) : list A :=
  match l with
  | [] => [x]
  | y :: l' => if key x <=? key y then x :: y :: l' else y :: insert_by x l'
  end.

Definition list_sort (l : list A) : list A := foldr insert_by [] l.

(** The order that the sort establishes. *)
Definition key_le (a b : A) : Prop := key a <= key b.
End Sort.

(** ** The processor *)

Record demand := Demand {
  demand_id : Z;
  demand_path : list Z;
  bandwidth : list Z
}.

Abbreviation mapping := (list Z).

(** The attribute [original_substrate] is not created by [__init__]. *)
Inductive slot :=
| Missing
| NoneVal
| Array (a : matrix).

Record NetworkProcessor := Processor {
  substrate_network : option matrix;
  original_substrate : slot;
  demands : list demand;
  accepted_demands : list demand;
  rejected_demands : list demand;
  allocations : gmap Z mapping
}.

Definition with_substrate (a : option matrix) (self : NetworkProcessor) :=
  Processor a (original_substrate self) (demands self)
            (accepted_demands self) (rejected_demands self) (allocations self).

Definition with_demands (ds : list demand) (self : NetworkProcessor) :=
  Processor (substrate_network self) (original_substrate self) ds
            (accepted_demands self) (rejected_demands self) (allocations self).

Definition with_accepted (ds : list demand) (self : NetworkProcessor) :=
  Processor (substrate_network self) (original_substrate self) (demands self)
            ds (rejected_demands self) (allocations self).

Definition with_rejected (ds : list demand) (self : NetworkProcessor) :=
  Processor (substrate_network self) (original_substrate self) (demands self)
            (accepted_demands self) ds (allocations self).

Definition with_allocations (al : gmap Z mapping) (self : NetworkProcessor) :=
  Processor (substrate_network self) (original_substrate self) (demands self)
            (accepted_demands self) (rejected_demands self) al.

(** The lines written by [process_all_demands]. *)
Inductive event :=
| Procesando (i : Z)
| Posibles (i : Z)
| Opcion (n : nat) (allocation : mapping)
| NoHayAsignaciones
| Aceptada (i : Z) (allocation : mapping)
| RechazadaRecursos (i : Z)
| RechazadaSinAsignaciones (i : Z).

(** ** Methods as computations *)

Definition M (A : Type) : Type :=
  NetworkProcessor -> result A * NetworkProcessor * list event.

Definition ret {A} (a : A) : M A := fun self => (Ok a, self, []).

Definition bindM {A B} (m : M A) (k : A -> M B) : M B :=
  fun self =>
    match m self with
    | (inl e, self', out) => (inl e, self', out)
    | (inr a, self', out) =>
        match k a self' with
        | (r, self'', out') => (r, self'', out ++ out')
        end
    end.

Notation "x <- m ;; k" := (bindM m (fun x => k))
  (at level 20, m at level 99, k at level 200, only parsing).
Notation "m ;;; k" := (bindM m (fun _ => k))
  (at level 100, k at level 200, right associativity, only parsing).

Definition lift {A} (r : result A) : M A := fun self => (r, self, []).
Definition get : M NetworkProcessor := fun self => (Ok self, self, []).
Definition modify (f : NetworkProcessor -> NetworkProcessor) : M unit :=
  fun self => (Ok tt, f self, []).
Definition print (e : event) : M unit := fun self => (Ok tt, self, [e]).

Fixpoint for_each {A} (l : list A) (body : A -> M unit) : M unit :=
  match l with
  | [] => ret tt
  | x :: l' => body x ;;; for_each l' body
  end.

Definition value {A} (r : result A * NetworkProcessor * list event) := fst (fst r).
Definition state {A} (r : result A * NetworkProcessor * list event) := snd (fst r).
Definition output {A} (r : result A * NetworkProcessor * list event) := snd r.

(** [__init__] *)
Definition init : NetworkProcessor :=
  Processor None Missing [] [] [] ∅.

(** [set_substrate_network] *)
Definition set_substrate_network (adjacency_matrix : matrix) : M unit :=
  modify (fun self =>
    Processor (Some adjacency_matrix) (Array adjacency_matrix) (demands self)
              (accepted_demands self) (rejected_demands self)
              (allocations self)).

(** [add_demand] *)
Definition add_demand (i : Z) (path bandwidth_requirements : list Z) : M unit :=
  modify (fun self =>
    with_demands (demands self ++ [Demand i path bandwidth_requirements]) self).

(** [reset]: the four collections are replaced first, then the attribute
    [original_substrate] is read. *)
Definition reset : M unit :=
  modify (with_demands []) ;;;
  modify (with_accepted []) ;;;
  modify (with_rejected []) ;;;
  modify (with_allocations ∅) ;;;
  self <- get ;;
  match original_substrate self with
  | Missing => lift (Raise AttributeError)
  | NoneVal => ret tt
  | Array a => modify (with_substrate (Some a))
  end.

(** The test made on link [i] of a demand under a mapping, common to the
    three loops over [range(len(demand['path']) - 1)]: the two nodes, the
    requirement. *)
Definition link (d : demand) (m : mapping) (i : nat) : result (Z * Z * Z) :=
  m_i <-? getitem m i ;;
  let src_node := m_i - 1 in
  m_j <-? getitem m (i + 1) ;;
  let dst_node := m_j - 1 in
  required_bandwidth <-? getitem (bandwidth d) i ;;
  Ok (src_node, dst_node, required_bandwidth).

Definition links (d : demand) : list nat := seq 0 (length (demand_path d) - 1)%nat.

(** The loop that looks for a link short of bandwidth: [Ok false] as soon
    as one is found. *)
Fixpoint links_fit (net : matrix) (d : demand) (m : mapping) (ixs : list nat)
  : result bool :=
  match ixs with
  | [] => Ok true
  | i :: ixs' =>
      l <-? link d m i ;;
      let '(src_node, dst_node, required_bandwidth) := l in
      available <-? np_get net src_node dst_node ;;
      if available <? required_bandwidth then Ok false
      else links_fit net d m ixs'
  end.

(** The filter loop of [find_all_possible_allocations]. *)
Fixpoint valid_mappings (net : matrix) (d : demand) (all_mappings : list mapping)
  : result (list mapping) :=
  match all_mappings with
  | [] => Ok []
  | m :: rest =>
      valid <-? links_fit net d m (links d) ;;
      tail <-? valid_mappings net d rest ;;
      Ok (if valid then m :: tail else tail)
  end.

(** [find_all_possible_allocations] only reads the processor. *)
Definition find_all_possible_allocations (self : NetworkProcessor) (d : demand)
  : result (list mapping) :=
  let demand_nodes := length (demand_path d) in
  net <-? match substrate_network self with
          | Some a => Ok a
          | None => Raise AttributeError
          end ;;
  let substrate_nodes := shape0 net in
  let all_mappings :=
    permutations (range 1 (Z.of_nat substrate_nodes + 1)) demand_nodes in
  valid_mappings net d all_mappings.

(** [self.substrate_network[src, dst]] *)
Definition read_link (src_node dst_node : Z) : M Z :=
  fun self =>
    match substrate_network self with
    | Some a => (np_get a src_node dst_node, self, [])
    | None => (Raise TypeError, self, [])
    end.

(** [self.substrate_network[src, dst] -= required] *)
Definition consume_link (src_node dst_node required_bandwidth : Z) : M unit :=
  fun self =>
    match substrate_network self with
    | Some a =>
        match np_isub a src_node dst_node required_bandwidth with
        | inr a' => (Ok tt, with_substrate (Some a') self, [])
        | inl e => (Raise e, self, [])
        end
    | None => (Raise TypeError, self, [])
    end.

(** First loop of [allocate_demand]: [false] stands for its [return False]. *)
Fixpoint enough_bandwidth (d : demand) (m : mapping) (ixs : list nat) : M bool :=
  match ixs with
  | [] => ret true
  | i :: ixs' =>
      l <- lift (link d m i) ;;
      let '(src_node, dst_node, required_bandwidth) := l in
      available <- read_link src_node dst_node ;;
      if available <? required_bandwidth then ret false
      else enough_bandwidth d m ixs'
  end.

(** Second loop of [allocate_demand]. *)
Fixpoint assign_resources (d : demand) (m : mapping) (ixs : list nat) : M unit :=
  match ixs with
  | [] => ret tt
  | i :: ixs' =>
      l <- lift (link d m i) ;;
      let '(src_node, dst_node, required_bandwidth) := l in
      consume_link src_node dst_node required_bandwidth ;;;
      assign_resources d m ixs'
  end.

(** [allocate_demand] *)
Definition allocate_demand (d : demand) (m : mapping) : M bool :=
  enough <- enough_bandwidth d m (links d) ;;
  if enough : bool then
    assign_resources d m (links d) ;;;
    modify (fun self =>
      with_allocations (<[demand_id d := m]> (allocations self)) self) ;;;
    ret true
  else ret false.

(** [get_acceptance_ratio] *)
Definition total_demands (self : NetworkProcessor) : nat :=
  (length (accepted_demands self) + length (rejected_demands self))%nat.

Definition get_acceptance_ratio (self : NetworkProcessor) : Q :=
  if (total_demands self =? 0)%nat then 0%Q
  else (Z.of_nat (length (accepted_demands self))
        # Pos.of_nat (total_demands self))%Q.

(** The key of the sort in [process_all_demands]. *)
Definition total_bandwidth (d : demand) : Z := sum (bandwidth d).

(** Body of the loop of [process_all_demands]. *)
Definition process_demand (d : demand) : M unit :=
  print (Procesando (demand_id d)) ;;;
  self <- get ;;
  possible_allocations <- lift (find_all_possible_allocations self d) ;;
  print (Posibles (demand_id d)) ;;;
  match possible_allocations with
  | _ :: _ =>
      for_each (imap (fun i allocation => Opcion (S i) allocation)
                     possible_allocations) print
  | [] => print NoHayAsignaciones
  end ;;;
  match possible_allocations with
  | allocation :: _ =>
      accepted <- allocate_demand d allocation ;;
      if accepted : bool then
        modify (fun self => with_accepted (accepted_demands self ++ [d]) self) ;;;
        print (Aceptada (demand_id d) allocation)
      else
        modify (fun self => with_rejected (rejected_demands self ++ [d]) self) ;;;
        print (RechazadaRecursos (demand_id d))
  | [] =>
      modify (fun self => with_rejected (rejected_demands self ++ [d]) self) ;;;
      print (RechazadaSinAsignaciones (demand_id d))
  end.

(** [process_all_demands] *)
Definition process_all_demands : M Q :=
  modify (fun self => with_demands (list_sort total_bandwidth (demands self)) self) ;;;
  self <- get ;;
  for_each (demands self) process_demand ;;;
  self <- get ;;
  ret (get_acceptance_ratio self).

(** ** The scenario of [main.py] *)

Definition substrate_example : matrix :=
  [ [0; 12;  0; 0; 0];
    [0;  0; 10; 7; 0];
    [0;  0;  0; 0; 8];
    [0;  0;  0; 0; 6];
    [0;  0;  0; 0; 0] ].

Definition demand_A : demand := Demand 1 [1; 2; 3; 4] [8; 8; 5].
Definition demand_B : demand := Demand 2 [1; 2; 3; 4] [4; 6; 2].

Definition scenario_setup : M unit :=
  set_substrate_network substrate_example ;;;
  add_demand 1 [1; 2; 3; 4] [8; 8; 5] ;;;
  add_demand 2 [1; 2; 3; 4] [4; 6; 2].

Definition scenario_start : NetworkProcessor := state (scenario_setup init).

Definition residual_example : matrix :=
  [ [0; 8; 0; 0; 0];
    [0; 0; 4; 7; 0];
    [0; 0; 0; 0; 6];
    [0; 0; 0; 0; 6];
    [0; 0; 0; 0; 0] ].

(** ** Notions used to state the properties *)

(** Entry of a matrix at a row and a column counted from 0. *)
Definition entry (a : matrix) (r c : nat) : option Z :=
  match a !! r with
  | Some row => row !! c
  | None => None
  end.

(** Capacity of the arc between two substrate labels (counted from 1). *)
Definition capacity (a : matrix) (u v : Z) : option Z :=
  entry a (Z.to_nat (u - 1)) (Z.to_nat (v - 1)).

Definition square (a : matrix) : Prop :=
  Forall (fun row => length row = length a) a.

(** Every residual entry lies between 0 and the entry of the baseline. *)
Definition within (net orig : matrix) : Prop :=
  forall u v r, 1 <= u -> 1 <= v -> capacity net u v = Some r ->
    exists o, capacity orig u v = Some o /\ 0 <= r <= o.

Definition bounded (self : NetworkProcessor) : Prop :=
  exists net orig,
    substrate_network self = Some net /\
    original_substrate self = Array orig /\
    map length net = map length orig /\
    within net orig.

(** A demand lists a requirement for each of its links. *)
Definition demand_ok (d : demand) : Prop :=
  (length (demand_path d) - 1 <= length (bandwidth d))%nat.

(** A substrate has been set, it is square, and the demands are well formed. *)
Definition well_formed (self : NetworkProcessor) : Prop :=
  exists net,
    substrate_network self = Some net /\ square net /\
    Forall demand_ok (demands self).

(** Link [i] can be read: the mapping and the demand are long enough and the
    arc is a cell of the array. *)
Definition placed (net : matrix) (d : demand) (m : mapping) (i : nat) : Prop :=
  exists u v req cap,
    m !! i = Some u /\ m !! S i = Some v /\ bandwidth d !! i = Some req /\
    1 <= u /\ 1 <= v /\ capacity net u v = Some cap.

(** Link [i] of the demand, placed by [m], finds its bandwidth in [net]. *)
Definition link_fits (net : matrix) (d : demand) (m : mapping) (i : nat) : Prop :=
  exists u v req cap,
    m !! i = Some u /\ m !! S i = Some v /\ bandwidth d !! i = Some req /\
    capacity net u v = Some cap /\ req <= cap.

(** The mappings of the specification: injective placements of the virtual
    nodes on the labels [1..N] whose consecutive arcs have the bandwidth. *)
Definition feasible (net : matrix) (d : demand) (m : mapping) : Prop :=
  length m = length (demand_path d) /\
  NoDup m /\
  Forall (fun x => 1 <= x <= Z.of_nat (length net)) m /\
  forall i, (i < length (demand_path d) - 1)%nat -> link_fits net d m i.

(** Lexicographic order on label sequences. *)
Inductive lex_lt : list Z -> list Z -> Prop :=
| lex_nil x l : lex_lt [] (x :: l)
| lex_head x y l l' : x < y -> lex_lt (x :: l) (y :: l')
| lex_tail x l l' : lex_lt l l' -> lex_lt (x :: l) (x :: l').

(** What a mapping asks of the arc [u -> v]: the requirements of the links
    it places on that arc, added up. *)
Definition asked_of_link (d : demand) (m : mapping) (u v : Z) (i : nat) : Z :=
  match m !! i, m !! S i, bandwidth d !! i with
  | Some a, Some b, Some req => if decide (a = u /\ b = v) then req else 0
  | _, _, _ => 0
  end.


(** The demands announced on the output, in the order of the announcements. *)
Definition processed (out : list event) : list Z :=
  omap (fun e => match e with Procesando i => Some i | _ => None end) out.

(** Adding a list of demands one after the other. *)
Definition add_demands (ds : list demand) : M unit :=
  for_each ds (fun d => add_demand (demand_id d) (demand_path d) (bandwidth d)).

(** A processor on which a substrate has been set and demands added. *)
Definition prepared (a : matrix) (ds : list demand) : NetworkProcessor :=
  state ((set_substrate_network a ;;; add_demands ds) init).

(** Two nodes, one arc of capacity 5, and a demand asking for [-3] on it. *)
Definition two_nodes : matrix := [ [0; 5]; [0; 0] ].

Definition negative_start : NetworkProcessor :=
  state ((set_substrate_network two_nodes ;;; add_demand 1 [1; 2] [-3]) init).

(** One row of three entries, one of them negative. *)
Definition lopsided : matrix := [ [0; -1; 3] ].





(** ** The readers of the processor *)

(** [get_results] *)
Record results := Results {
  result_accepted_demands : list demand;
  result_rejected_demands : list demand;
  result_acceptance_ratio : Q;
  result_allocations : gmap Z mapping;
  result_remaining_substrate : option matrix
}.

Definition get_results (self : NetworkProcessor) : results :=
  Results (accepted_demands self) (rejected_demands self)
          (get_acceptance_ratio self) (allocations self)
          (substrate_network self).

(** The lines written by [print_allocation_results]; a line carries the
    values that the source formats into it. *)
Inductive report_line :=
| Resultados
| RatioDeAceptacion (q : Q)
| DemandasAceptadas (n total : nat)
| Asignaciones
| Asignada (i : Z) (allocation : mapping)
| Rechazada (i : Z)
| RecursosRestantes
| Matriz (a : option matrix).

(** How [print_allocation_results] ends: by returning, or by the [KeyError]
    of [self.allocations[demand['id']]]. *)
Inductive report_end :=
| Returned
| KeyError (key : Z).

(** The loop over [self.accepted_demands]. *)
Fixpoint report_accepted (al : gmap Z mapping) (ds : list demand)
  : list report_line * report_end :=
  match ds with
  | [] => ([], Returned)
  | d :: ds' =>
      match al !! demand_id d with
      | Some allocation =>
          let '(lines, e) := report_accepted al ds' in
          (Asignada (demand_id d) allocation :: lines, e)
      | None => ([], KeyError (demand_id d))
      end
  end.

(** [print_allocation_results] only reads the processor. *)
Definition print_allocation_results (self : NetworkProcessor)
  : list report_line * report_end :=
  let heading :=
    [ Resultados;
      RatioDeAceptacion (get_acceptance_ratio self);
      DemandasAceptadas (length (accepted_demands self)) (length (demands self));
      Asignaciones ] in
  match report_accepted (allocations self) (accepted_demands self) with
  | (lines, Returned) =>
      (heading ++ lines
         ++ map (fun d => Rechazada (demand_id d)) (rejected_demands self)
         ++ [RecursosRestantes; Matriz (substrate_network self)],
       Returned)
  | (lines, KeyError key) => (heading ++ lines, KeyError key)
  end.

(** ** The metrics of [metrics.py]

    The two utilizations are returned by the source as floating-point
    percentages; the model keeps the integers from which the percentage is
    computed. *)

(** Either the literal [0.0], or [(num / den) * 100]. *)
Inductive percentage :=
| ZeroPercent
| Percent (num den : Z).

(** [np.sum(a)] of an int64 array: the sum of the entries, wrapped. *)
Definition np_sum (a : matrix) : Z := wrap64 (sum (map sum a)).

(** [calculate_bandwidth_utilization], with [self.processor] as argument. *)
Definition calculate_bandwidth_utilization (processor : option NetworkProcessor)
  : result percentage :=
  match processor with
  | None => Ok ZeroPercent
  | Some p =>
      match original_substrate p with
      | Missing => Raise AttributeError
      | NoneVal => Ok ZeroPercent
      | Array orig =>
          let total_bandwidth := np_sum orig in
          match substrate_network p with
          | None => Raise TypeError
          | Some net =>
              let used_bandwidth := wrap64 (total_bandwidth - np_sum net) in
              if total_bandwidth =? 0 then Ok ZeroPercent
              else Ok (Percent used_bandwidth total_bandwidth)
          end
      end
  end.

(** The set built by the two nested loops of [calculate_node_utilization]. *)
Definition used_nodes (al : gmap Z mapping) : gset Z :=
  ⋃ ((fun entry => list_to_set (snd entry)) <$> map_to_list al).

(** [calculate_node_utilization], with [self.processor] as argument. *)
Definition calculate_node_utilization (processor : option NetworkProcessor)
  : result percentage :=
  match processor with
  | None => Ok ZeroPercent
  | Some p =>
      match substrate_network p with
      | None => Raise AttributeError
      | Some net =>
          let total_nodes := shape0 net in
          let used := used_nodes (allocations p) in
          if (total_nodes =? 0)%nat then Ok ZeroPercent
          else Ok (Percent (Z.of_nat (size used)) (Z.of_nat total_nodes))
      end
  end.

(** ** Further notions *)

(** An array whose cells hold integers of the int64 range. *)
Definition int64_array (a : matrix) : Prop := Forall (Forall int64) a.

(** A demand whose requirements are integers of the int64 range. *)
Definition int64_demand (d : demand) : Prop := Forall int64 (bandwidth d).

(** The array once link [i] of the demand, placed by [m], is committed. *)
Definition committed_link (d : demand) (m : mapping) (net : matrix) (i : nat)
  : matrix :=
  match link d m i with
  | inr (src_node, dst_node, required_bandwidth) =>
      match np_isub net src_node dst_node required_bandwidth with
      | inr net' => net'
      | inl _ => net
      end
  | inl _ => net
  end.

(** The array once the links [past] are committed, one after the other. *)
Definition committed (d : demand) (m : mapping) (net : matrix) (past : list nat)
  : matrix :=
  foldl (committed_link d m) net past.


(** The sum of the entries of a matrix, without wrap-around. *)
Definition entries_sum (a : matrix) : Z :=
  foldr Z.add 0 (map (foldr Z.add 0) a).


(** The requirements of the links of a demand, added up. *)
Definition links_total (d : demand) : Z :=
  sum (take (length (demand_path d) - 1) (bandwidth d)).

(** The bandwidth asked by the accepted demands. *)
Definition accepted_volume (self : NetworkProcessor) : Z :=
  sum (map links_total (accepted_demands self)).

(** No arc of [net'] has more capacity than in [net], arrays of one shape. *)
Definition below (net' net : matrix) : Prop :=
  map length net' = map length net /\
  forall u v r', 1 <= u -> 1 <= v -> capacity net' u v = Some r' ->
    exists r, capacity net u v = Some r /\ r' <= r.

(** The allocations are recorded under the identifiers of the accepted
    demands, and under no other. *)
Definition allocations_match (self : NetworkProcessor) : Prop :=
  dom (allocations self)
  = (list_to_set (map demand_id (accepted_demands self)) : gset Z).

(** Every recorded mapping is a sequence of different labels of [1..n]. *)
Definition allocations_on (n : nat) (self : NetworkProcessor) : Prop :=
  map_Forall (fun _ (m : mapping) =>
                NoDup m /\ Forall (fun x => 1 <= x <= Z.of_nat n) m)
             (allocations self).

(** The lines of the output that reject a demand for want of resources at
    the commit. *)
Definition conflicts (out : list event) : list Z :=
  omap (fun e => match e with RechazadaRecursos i => Some i | _ => None end) out.

(** ** Checks of the model on small inputs *)

Example permutations_3_2 :
  permutations [1; 2; 3] 2 = [[1; 2]; [1; 3]; [2; 1]; [2; 3]; [3; 1]; [3; 2]].
Proof. reflexivity. Qed.

Example permutations_too_long : permutations [1; 2] 3 = [].
Proof. reflexivity. Qed.

Example sort_is_stable :
  list_sort fst [(2, 1); (1, 2); (2, 3); (1, 4)] = [(1, 2); (1, 4); (2, 1); (2, 3)].
Proof. reflexivity. Qed.

Example isub_wraps :
  np_isub [[9223372036854775807]] 0 0 (-1) = Ok [[-9223372036854775808]].
Proof. reflexivity. Qed.

Example isub_overflows :
  np_isub [[5]] 0 0 (-9223372036854775809) = Raise OverflowError.
Proof. reflexivity. Qed.

Example sum_wraps : np_sum [[9223372036854775807; 1]] = -9223372036854775808.
Proof. reflexivity. Qed.

Example scenario_run :
  process_all_demands scenario_start =
  (Ok (1 # 2)%Q,
   Processor (Some residual_example) (Array substrate_example)
             [demand_B; demand_A] [demand_B] [demand_A]
             {[ 2 := [1; 2; 3; 5] ]},
   [ Procesando 2; Posibles 2;
     Opcion 1 [1; 2; 3; 5]; Opcion 2 [1; 2; 4; 5];
     Aceptada 2 [1; 2; 3; 5];
     Procesando 1; Posibles 1; NoHayAsignaciones;
     RechazadaSinAsignaciones 1 ]).
Proof. vm_compute. reflexivity. Qed.

(** ** The stable sort *)

Section SortFacts.
Context {A : Type} (key : A -> Z).

Lemma insert_by_perm x l : insert_by key x l ≡ₚ x :: l.
Proof.
  induction l as [|y l IH]; simpl; [done|].
  destruct (key x <=? key y); [done|].
  rewrite IH. apply perm_swap.
Qed.

Lemma list_sort_perm l : list_sort key l ≡ₚ l.
Proof.
  induction l as [|x l IH]; simpl; [done|].
  rewrite insert_by_perm. by f_equiv.
Qed.

Lemma insert_by_sorted x l :
  StronglySorted (key_le key) l -> StronglySorted (key_le key) (insert_by key x l).
Proof.
  induction 1 as [|y l Hs IH Hy]; simpl.
  - repeat constructor.
  - destruct (Z.leb_spec (key x) (key y)) as [Hle|Hlt].
    + constructor; [by constructor|].
      constructor; [done|].
      eapply Forall_impl; [exact Hy|]. unfold key_le. intros; lia.
    + constructor; [done|].
      rewrite (insert_by_perm x l). constructor; [|done].
      unfold key_le. lia.
Qed.

Lemma list_sort_sorted l : StronglySorted (key_le key) (list_sort key l).
Proof.
  induction l; simpl; [constructor|]. by apply insert_by_sorted.
Qed.



Lemma list_sort_sorted_id l :
  StronglySorted (key_le key) l -> list_sort key l = l.
Proof.
  induction 1 as [|x l Hs IH Hx]; simpl; [done|].
  rewrite IH. destruct Hx as [|y l Hxy _]; simpl; [done|].
  unfold key_le in Hxy. destruct (Z.leb_spec (key x) (key y)); [done|lia].
Qed.

Lemma list_sort_idem l : list_sort key (list_sort key l) = list_sort key l.
Proof. apply list_sort_sorted_id, list_sort_sorted. Qed.
End SortFacts.

(** ** Array accesses *)

Lemma bindR_Ok {A B} (r : result A) (k : A -> result B) b :
  bindR r k = inr b -> exists a, r = inr a /\ k a = inr b.
Proof. destruct r as [e|a]; simpl; [done|]. eauto. Qed.

Lemma getitem_Ok {A} (l : list A) i x : getitem l i = inr x <-> l !! i = Some x.
Proof. unfold getitem. destruct (l !! i); unfold Ok, Raise; naive_solver. Qed.

Lemma norm_index_lt n i r : norm_index n i = inr r -> (r < n)%nat.
Proof.
  unfold norm_index, Ok, Raise. intros H.
  repeat case_match; simplify_eq; lia.
Qed.

Lemma norm_index_nonneg n i :
  0 <= i ->
  norm_index n i = if decide (Z.to_nat i < n)%nat then Ok (Z.to_nat i)
                   else Raise IndexError.
Proof.
  intros Hi. unfold norm_index.
  case_decide; repeat case_match; try done; lia.
Qed.

(** For indices that are not negative an access is a plain lookup. *)
Lemma np_get_entry a i j :
  0 <= i -> 0 <= j ->
  np_get a i j = match entry a (Z.to_nat i) (Z.to_nat j) with
                 | Some x => Ok x
                 | None => Raise IndexError
                 end.
Proof.
  intros Hi Hj. unfold np_get, entry.
  rewrite (norm_index_nonneg _ i Hi). case_decide as Hr; simpl.
  - destruct (lookup_lt_is_Some_2 a _ Hr) as [row Hrow].
    unfold getitem at 1. rewrite Hrow. simpl.
    rewrite (norm_index_nonneg _ j Hj). unfold getitem.
    case_decide as Hc; simpl.
    + done.
    + by rewrite (lookup_ge_None_2 row) by lia.
  - by rewrite (lookup_ge_None_2 a) by lia.
Qed.

Lemma np_get_capacity a u v :
  1 <= u -> 1 <= v ->
  np_get a (u - 1) (v - 1) = match capacity a u v with
                             | Some x => Ok x
                             | None => Raise IndexError
                             end.
Proof. intros. unfold capacity. apply np_get_entry; lia. Qed.

Lemma entry_insert (a : matrix) r c row v r' c' :
  a !! r = Some row -> (c < length row)%nat ->
  entry (<[r := <[c := v]> row]> a) r' c'
  = if decide (r' = r /\ c' = c) then Some v else entry a r' c'.
Proof.
  intros Hrow Hc. unfold entry.
  destruct (decide (r' = r)) as [->|Hr].
  - rewrite list_lookup_insert_eq by (by eapply lookup_lt_Some).
    rewrite Hrow.
    destruct (decide (c' = c)) as [->|Hne].
    + rewrite list_lookup_insert_eq by done. by rewrite decide_True.
    + rewrite list_lookup_insert_ne by done. by rewrite decide_False by tauto.
  - rewrite list_lookup_insert_ne by done. by rewrite decide_False by tauto.
Qed.

(** int64 arithmetic *)

Lemma int64b_true z : int64b z = true <-> int64 z.
Proof. unfold int64, int64b. rewrite andb_true_iff, !Z.leb_le. done. Qed.

Lemma int64b_spec z : reflect (int64 z) (int64b z).
Proof. apply iff_reflect. symmetry. apply int64b_true. Qed.


Lemma wrap64_id z : int64 z -> wrap64 z = z.
Proof.
  unfold int64, wrap64, int64_min, int64_max. intros Hz.
  rewrite Z.mod_small by lia. lia.
Qed.


(** From a cell that holds at least a requirement that is not negative,
    the difference is exact. *)
Lemma sub64_exact x req : 0 <= req <= x -> sub64 x req = x - req.
Proof.
  intros Hreq. unfold sub64.
  destruct (int64b_spec x) as [Hx|_]; [|done].
  apply wrap64_id. unfold int64, int64_min, int64_max in *. lia.
Qed.


Lemma np_set_capacity a u v w x :
  1 <= u -> 1 <= v -> capacity a u v = Some x ->
  exists a',
    np_set a (u - 1) (v - 1) w = inr a' /\
    map length a' = map length a /\
    forall u' v', 1 <= u' -> 1 <= v' ->
      capacity a' u' v'
      = if decide (u' = u /\ v' = v) then Some w else capacity a u' v'.
Proof.
  intros Hu Hv Hx. unfold np_set.
  rewrite norm_index_nonneg by lia.
  unfold capacity, entry in Hx.
  destruct (a !! Z.to_nat (u - 1)) as [row|] eqn:Hrow; [|done].
  rewrite decide_True by (by eapply lookup_lt_Some). simpl.
  unfold getitem at 1. rewrite Hrow. simpl.
  rewrite norm_index_nonneg by lia.
  rewrite decide_True by (by eapply lookup_lt_Some). simpl.
  eexists. split_and!; [done| |].
  - change (length <$> <[Z.to_nat (u - 1):=<[Z.to_nat (v - 1):=w]> row]> a
            = length <$> a).
    rewrite list_fmap_insert, length_insert.
    apply list_insert_id. by rewrite list_lookup_fmap, Hrow.
  - intros u' v' Hu' Hv'.
    unfold capacity. rewrite entry_insert; [|done|by eapply lookup_lt_Some].
    repeat case_decide; try done; destruct_and?; lia.
Qed.

Lemma np_isub_capacity a u v req x :
  1 <= u -> 1 <= v -> capacity a u v = Some x -> int64 req ->
  exists a',
    np_isub a (u - 1) (v - 1) req = inr a' /\
    map length a' = map length a /\
    forall u' v', 1 <= u' -> 1 <= v' ->
      capacity a' u' v'
      = if decide (u' = u /\ v' = v) then Some (sub64 x req)
        else capacity a u' v'.
Proof.
  intros Hu Hv Hx Hreq. unfold np_isub.
  rewrite np_get_capacity, Hx by done. simpl.
  destruct (int64b_spec req); [|done].
  by apply (np_set_capacity a u v _ x).
Qed.

Lemma np_isub_overflow a u v req x :
  1 <= u -> 1 <= v -> capacity a u v = Some x -> ~ int64 req ->
  np_isub a (u - 1) (v - 1) req = inl OverflowError.
Proof.
  intros Hu Hv Hx Hreq. unfold np_isub.
  rewrite np_get_capacity, Hx by done. simpl.
  by destruct (int64b_spec req).
Qed.

(** ** The arrangements produced by [permutations] *)

Section Picks.
Context {A : Type}.
Implicit Types (l rest : list A) (x : A).

Lemma in_picks l x rest :
  In (x, rest) (picks l) <->
  exists l1 l2, l = l1 ++ x :: l2 /\ rest = l1 ++ l2.
Proof.
  revert x rest. induction l as [|y l IH]; intros x rest; simpl.
  - split; [done|]. intros ([|??] & ? & ? & _); done.
  - rewrite in_map_iff. split.
    + intros [[= -> ->]|([x' rest'] & [= -> <-] & Hin)].
      * by exists [], rest.
      * apply IH in Hin as (l1 & l2 & -> & ->). by exists (y :: l1), l2.
    + intros ([|z l1] & l2 & [= -> ->] & ->).
      * by left.
      * right. exists (x, l1 ++ l2). split; [done|]. apply IH. eauto.
Qed.

Lemma picks_fst l : map fst (picks l) = l.
Proof.
  induction l as [|y l IH]; simpl; [done|].
  f_equal. rewrite map_map. rewrite <-IH at 2. by apply map_ext.
Qed.

Lemma in_permutations_S pool r (m : list A) :
  In m (permutations pool (S r)) <->
  exists x rest m', In (x, rest) (picks pool) /\ m = x :: m' /\
                    In m' (permutations rest r).
Proof.
  simpl. rewrite in_flat_map. split.
  - intros ([x rest] & Hp & Hm). apply in_map_iff in Hm as (m' & <- & Hm').
    by exists x, rest, m'.
  - intros (x & rest & m' & Hp & -> & Hm'). exists (x, rest).
    split; [done|]. apply in_map_iff. eauto.
Qed.

(** The arrangements are the sequences without repetition drawn from the
    pool. *)
Lemma in_permutations pool r (m : list A) :
  NoDup pool ->
  In m (permutations pool r) <-> length m = r /\ NoDup m /\ m ⊆ pool.
Proof.
  revert pool m. induction r as [|r IH]; intros pool m Hpool.
  - simpl. split.
    + intros [<-|[]]. split_and!; [done|constructor|set_solver].
    + intros (Hl & _). left. by destruct m.
  - rewrite in_permutations_S. split.
    + intros (x & rest & m' & Hp & -> & Hm').
      apply in_picks in Hp as (l1 & l2 & -> & ->).
      assert (NoDup (l1 ++ l2)) as Hrest.
      { apply NoDup_app in Hpool as (? & Hd & Hl2%NoDup_cons).
        apply NoDup_app. split_and!; [done| |naive_solver].
        intros z Hz Hz'. apply (Hd z Hz). set_solver. }
      apply IH in Hm' as (Hlen & Hnd & Hsub); [|done].
      split_and!.
      * simpl. by rewrite Hlen.
      * apply NoDup_cons. split; [|done]. intros Hx%Hsub.
        apply NoDup_app in Hpool as (? & Hd & [Hl2 ?]%NoDup_cons).
        apply elem_of_app in Hx as [Hx|Hx]; [|done].
        apply (Hd x Hx). set_solver.
      * set_solver.
    + intros (Hlen & Hnd & Hsub). destruct m as [|x m']; [done|].
      apply NoDup_cons in Hnd as [Hx Hnd].
      assert (x ∈ pool) as Hin by set_solver.
      apply list_elem_of_split in Hin as (l1 & l2 & ->).
      exists x, (l1 ++ l2), m'. split_and!; [|done|].
      * apply in_picks. eauto.
      * apply IH.
        { apply NoDup_app in Hpool as (? & Hd & Hl2%NoDup_cons).
          apply NoDup_app. split_and!; [done| |naive_solver].
          intros z Hz Hz'. apply (Hd z Hz). set_solver. }
        split_and!; [by injection Hlen|done|].
        intros z Hz. assert (z ∈ l1 ++ x :: l2) as Hz' by set_solver.
        assert (z <> x) by (intros ->; done). set_solver.
Qed.
End Picks.

(** ** The order of the arrangements *)

Lemma lex_lt_map_cons x ms :
  StronglySorted lex_lt ms -> StronglySorted lex_lt (map (cons x) ms).
Proof.
  induction 1 as [|m ms Hs IH Hm]; simpl; constructor; [done|].
  apply Forall_forall. intros m' (m'' & <- & Hin)%list_elem_of_In%in_map_iff.
  apply lex_tail. rewrite Forall_forall in Hm. by apply Hm, list_elem_of_In.
Qed.

Lemma picks_sorted (l : list Z) x rest :
  StronglySorted Z.lt l -> In (x, rest) (picks l) -> StronglySorted Z.lt rest.
Proof.
  intros Hl (l1 & l2 & -> & ->)%in_picks.
  apply StronglySorted_app in Hl as (Hcross & H1 & H2%StronglySorted_cons).
  apply StronglySorted_app. split_and!; [|done|naive_solver].
  intros a b Ha Hb. apply Hcross; set_solver.
Qed.

Lemma blocks_sorted (f : list Z -> list (list Z)) (ps : list (Z * list Z)) :
  StronglySorted Z.lt (map fst ps) ->
  (forall p, In p ps -> StronglySorted lex_lt (f (snd p))) ->
  StronglySorted lex_lt (flat_map (fun p => map (cons (fst p)) (f (snd p))) ps).
Proof.
  induction ps as [|[x rest] ps IH]; simpl; intros Hs Hf; [constructor|].
  apply StronglySorted_cons in Hs as [Hx Hs].
  apply StronglySorted_app. split_and!.
  - intros a b (a' & <- & _)%list_elem_of_In%in_map_iff
                 ([y rest'] & Hp & (b' & <- & _)%in_map_iff)%list_elem_of_In%in_flat_map.
    apply lex_head. rewrite Forall_forall in Hx. apply Hx.
    apply list_elem_of_In, in_map_iff. by exists (y, rest').
  - apply lex_lt_map_cons, (Hf (x, rest)). by left.
  - apply IH; [done|]. intros p Hp. apply Hf. by right.
Qed.

Lemma permutations_sorted (pool : list Z) r :
  StronglySorted Z.lt pool -> StronglySorted lex_lt (permutations pool r).
Proof.
  revert pool. induction r as [|r IH]; intros pool Hpool; simpl.
  - repeat constructor.
  - apply (blocks_sorted (fun rest => permutations rest r)).
    + by rewrite picks_fst.
    + intros [x rest] Hp. eapply IH, picks_sorted; eauto.
Qed.

Lemma range_sorted lo hi : StronglySorted Z.lt (range lo hi).
Proof.
  unfold range. generalize (Z.to_nat (hi - lo)) as n. generalize 0%nat as s.
  intros s n. revert s. induction n as [|n IH]; intros s; simpl; constructor.
  - apply IH.
  - apply Forall_forall. intros x (i & <- & Hi%in_seq)%list_elem_of_In%in_map_iff.
    lia.
Qed.

Lemma elem_of_range lo hi x : x ∈ range lo hi <-> lo <= x < hi.
Proof.
  unfold range. rewrite list_elem_of_In, in_map_iff. split.
  - intros (i & <- & Hi%in_seq). lia.
  - intros Hx. exists (Z.to_nat (x - lo)). rewrite in_seq. lia.
Qed.

Lemma sorted_NoDup (l : list Z) : StronglySorted Z.lt l -> NoDup l.
Proof.
  induction 1 as [|x l Hs IH Hx]; constructor; [|done].
  intros Hin. rewrite Forall_forall in Hx. specialize (Hx x Hin). lia.
Qed.

(** The candidates of [find_all_possible_allocations]. *)
Lemma in_all_mappings n k (m : mapping) :
  In m (permutations (range 1 (Z.of_nat n + 1)) k) <->
  length m = k /\ NoDup m /\ Forall (fun x => 1 <= x <= Z.of_nat n) m.
Proof.
  rewrite in_permutations by apply sorted_NoDup, range_sorted.
  rewrite Forall_forall. do 2 apply and_iff_compat_l.
  split; intros H x Hx; specialize (H x Hx).
  - apply elem_of_range in H. lia.
  - apply elem_of_range. lia.
Qed.

(** ** The test of the links of a mapping *)

Lemma link_lookup d m i u v req :
  m !! i = Some u -> m !! S i = Some v -> bandwidth d !! i = Some req ->
  link d m i = Ok (u - 1, v - 1, req).
Proof.
  intros Hu Hv Hreq. unfold link, getitem.
  rewrite Hu. simpl. rewrite Nat.add_1_r, Hv. simpl. by rewrite Hreq.
Qed.

Lemma link_Ok d m i s t req :
  link d m i = inr (s, t, req) ->
  exists u v, m !! i = Some u /\ m !! S i = Some v /\
              bandwidth d !! i = Some req /\ s = u - 1 /\ t = v - 1.
Proof.
  unfold link. intros H.
  apply bindR_Ok in H as (u & Hu%getitem_Ok & H).
  apply bindR_Ok in H as (v & Hv%getitem_Ok & H).
  apply bindR_Ok in H as (r & Hr%getitem_Ok & H).
  rewrite Nat.add_1_r in Hv. injection H as <- <- <-. by exists u, v.
Qed.

Lemma capacity_square net u v :
  square net -> 1 <= u <= Z.of_nat (length net) ->
  1 <= v <= Z.of_nat (length net) -> is_Some (capacity net u v).
Proof.
  intros Hsq Hu Hv. unfold capacity, entry.
  destruct (lookup_lt_is_Some_2 net (Z.to_nat (u - 1))) as [row Hrow]; [lia|].
  rewrite Hrow. apply lookup_lt_is_Some_2.
  unfold square in Hsq. rewrite Forall_forall in Hsq.
  rewrite (Hsq row) by (by eapply list_elem_of_lookup_2). lia.
Qed.

Lemma placed_well_formed net d m i :
  square net -> demand_ok d ->
  length m = length (demand_path d) ->
  Forall (fun x => 1 <= x <= Z.of_nat (length net)) m ->
  (i < length (demand_path d) - 1)%nat ->
  placed net d m i.
Proof.
  intros Hsq Hd Hlen Hm Hi. unfold demand_ok in Hd.
  destruct (lookup_lt_is_Some_2 m i) as [u Hu]; [lia|].
  destruct (lookup_lt_is_Some_2 m (S i)) as [v Hv]; [lia|].
  destruct (lookup_lt_is_Some_2 (bandwidth d) i) as [req Hreq]; [lia|].
  rewrite Forall_forall in Hm.
  pose proof (Hm u (list_elem_of_lookup_2 _ _ _ Hu)).
  pose proof (Hm v (list_elem_of_lookup_2 _ _ _ Hv)).
  destruct (capacity_square net u v) as [cap Hcap]; [done..|].
  exists u, v, req, cap. split_and!; (done || lia).
Qed.

Lemma links_fit_placed net d m ixs :
  (forall i, i ∈ ixs -> placed net d m i) ->
  exists b, links_fit net d m ixs = Ok b /\
            (b = true <-> forall i, i ∈ ixs -> link_fits net d m i).
Proof.
  induction ixs as [|i ixs IH]; intros Hp; simpl.
  - exists true. split; [done|]. split; [|done]. intros _ i Hi. inversion Hi.
  - destruct (Hp i) as (u & v & req & cap & Hu & Hv & Hreq & ? & ? & Hcap);
      [by left|].
    rewrite (link_lookup d m i u v req) by done. simpl.
    rewrite np_get_capacity, Hcap by done. simpl.
    destruct (Z.ltb_spec cap req) as [Hlt|Hge].
    + exists false. split; [done|]. split; [done|]. intros Hall.
      destruct (Hall i) as (u' & v' & req' & cap' & ? & ? & ? & ? & ?); [by left|].
      simplify_eq. lia.
    + destruct IH as (b & -> & Hb); [intros; apply Hp; by right|].
      exists b. split; [done|]. rewrite Hb. split.
      * intros Hall j [->|Hj]%elem_of_cons; [|by apply Hall].
        exists u, v, req, cap. split_and!; (done || lia).
      * intros Hall j Hj. apply Hall. by right.
Qed.

(** Whatever the array, a mapping that passes the test has all its links
    readable and served. *)
Lemma links_fit_true net d m ixs :
  links_fit net d m ixs = inr true ->
  forall i, i ∈ ixs ->
    exists s t req x, link d m i = inr (s, t, req) /\
                      np_get net s t = inr x /\ req <= x.
Proof.
  induction ixs as [|i ixs IH]; simpl; intros H j Hj; [inversion Hj|].
  apply bindR_Ok in H as ([[s t] req] & Hl & H).
  apply bindR_Ok in H as (x & Hx & H).
  destruct (Z.ltb_spec x req) as [Hlt|Hge]; [done|].
  apply elem_of_cons in Hj as [->|Hj]; [|by apply IH].
  exists s, t, req, x. by split_and!.
Qed.

Lemma elem_of_links d i : i ∈ links d <-> (i < length (demand_path d) - 1)%nat.
Proof. unfold links. rewrite elem_of_seq. lia. Qed.

(** ** The filter of [find_all_possible_allocations] *)

Lemma sublist_sorted {A} (R : relation A) (l1 l2 : list A) :
  l1 `sublist_of` l2 -> StronglySorted R l2 -> StronglySorted R l1.
Proof.
  induction 1 as [|x l1 l2 Hsub IH|x l1 l2 Hsub IH];
    intros Hs; [done|..]; apply StronglySorted_cons in Hs as [Hx Hs].
  - apply StronglySorted_cons. split; [|by apply IH].
    rewrite Forall_forall in *. intros y Hy. apply Hx.
    by eapply sublist_subseteq.
  - by apply IH.
Qed.

Lemma valid_mappings_elem net d ms l :
  valid_mappings net d ms = inr l ->
  l `sublist_of` ms /\
  forall m, m ∈ l <-> m ∈ ms /\ links_fit net d m (links d) = inr true.
Proof.
  revert l. induction ms as [|m0 ms IH]; simpl; intros l H.
  - injection H as <-. split; [constructor|]. set_solver.
  - apply bindR_Ok in H as (valid & Hvalid & H).
    apply bindR_Ok in H as (tail & Htail & H).
    injection H as <-. destruct (IH tail Htail) as [Hsub Hin].
    destruct valid.
    + split; [by constructor|]. intros m. rewrite !elem_of_cons, Hin.
      naive_solver.
    + split; [by constructor|]. intros m. rewrite elem_of_cons, Hin.
      split; [naive_solver|]. intros [[->|?] Hfit]; [congruence|done].
Qed.

Lemma valid_mappings_total net d ms :
  (forall m, m ∈ ms -> exists b, links_fit net d m (links d) = Ok b) ->
  exists l, valid_mappings net d ms = Ok l.
Proof.
  induction ms as [|m0 ms IH]; simpl; intros Hall; [by eexists|].
  destruct (Hall m0) as [b ->]; [by left|]. simpl.
  destruct IH as [tail ->]; [intros; apply Hall; by right|]. simpl.
  by eexists.
Qed.

(** What the enumerator returns, whenever it returns. *)
Lemma find_all_possible_allocations_elem self d l :
  find_all_possible_allocations self d = inr l ->
  exists net,
    substrate_network self = Some net /\
    StronglySorted lex_lt l /\
    forall m, m ∈ l <->
      (length m = length (demand_path d) /\ NoDup m /\
       Forall (fun x => 1 <= x <= Z.of_nat (length net)) m) /\
      links_fit net d m (links d) = inr true.
Proof.
  unfold find_all_possible_allocations. intros H.
  destruct (substrate_network self) as [net|]; [|done]. simpl in H.
  apply valid_mappings_elem in H as [Hsub Hin].
  exists net. split_and!; [done| |].
  - eapply sublist_sorted; [done|]. apply permutations_sorted, range_sorted.
  - intros m. by rewrite Hin, list_elem_of_In, in_all_mappings.
Qed.

(** On a square substrate and a well-formed demand the enumerator returns,
    and returns the feasible mappings in lexicographic order. *)
Lemma find_all_possible_allocations_feasible self d net :
  substrate_network self = Some net -> square net -> demand_ok d ->
  exists l,
    find_all_possible_allocations self d = Ok l /\
    StronglySorted lex_lt l /\
    forall m, m ∈ l <-> feasible net d m.
Proof.
  intros Hnet Hsq Hd.
  assert (forall m, length m = length (demand_path d) ->
            Forall (fun x => 1 <= x <= Z.of_nat (length net)) m ->
            exists b, links_fit net d m (links d) = Ok b /\
                      (b = true <-> forall i, (i < length (demand_path d) - 1)%nat ->
                                              link_fits net d m i)) as Hfit.
  { intros m Hlen Hm. destruct (links_fit_placed net d m (links d)) as (b & Hb & Hiff).
    - intros i Hi%elem_of_links. by apply placed_well_formed.
    - exists b. split; [done|]. rewrite Hiff.
      split; intros H i Hi; apply H; by apply elem_of_links. }
  destruct (valid_mappings_total net d
              (permutations (range 1 (Z.of_nat (shape0 net) + 1))
                            (length (demand_path d)))) as [l Hl].
  { intros m (Hlen & _ & Hm)%list_elem_of_In%in_all_mappings.
    destruct (Hfit m Hlen Hm) as (b & Hb & _). eauto. }
  assert (find_all_possible_allocations self d = Ok l) as Hfind.
  { unfold find_all_possible_allocations. by rewrite Hnet. }
  exists l. split; [done|].
  destruct (find_all_possible_allocations_elem self d l Hfind)
    as (net' & Hnet' & Hsorted & Hin).
  assert (net' = net) as -> by congruence.
  split; [done|]. intros m. rewrite Hin. unfold feasible. split.
  - intros ((Hlen & Hnd & Hm) & Htrue). split_and!; [done..|].
    destruct (Hfit m Hlen Hm) as (b & Hb & Hiff).
    apply Hiff. unfold Ok in Hb. congruence.
  - intros (Hlen & Hnd & Hm & Hall). split; [done|].
    destruct (Hfit m Hlen Hm) as (b & Hb & Hiff).
    apply Hiff in Hall. by subst b.
Qed.

(** ** The two loops of [allocate_demand] *)

Ltac run := unfold bindM, ret, lift, get, modify, print, Ok, Raise in *; simpl in *.

Lemma enough_bandwidth_reads d m ixs self :
  exists r, enough_bandwidth d m ixs self = (r, self, []).
Proof.
  induction ixs as [|i ixs IH]; simpl; [by eexists|].
  run. destruct (link d m i) as [e|[[s t] req]]; [by eexists|].
  unfold read_link. destruct (substrate_network self) as [net|]; [|by eexists].
  destruct (np_get net s t) as [e|x]; [by eexists|].
  destruct (x <? req); [by eexists|].
  destruct IH as [r ->]. by eexists.
Qed.

Lemma enough_bandwidth_links_fit d m ixs self net :
  substrate_network self = Some net ->
  enough_bandwidth d m ixs self = (links_fit net d m ixs, self, []).
Proof.
  intros Hnet. induction ixs as [|i ixs IH]; simpl; [done|].
  run. destruct (link d m i) as [e|[[s t] req]]; [done|]. simpl.
  unfold read_link. rewrite Hnet.
  destruct (np_get net s t) as [e|x]; [done|]. simpl.
  destruct (x <? req); [done|]. by rewrite IH.
Qed.

Lemma enough_bandwidth_no_substrate d m ixs self r :
  substrate_network self = None ->
  enough_bandwidth d m ixs self = (inr true, self, r) -> ixs = [].
Proof.
  intros Hnet. destruct ixs as [|i ixs]; [done|]. simpl. run.
  destruct (link d m i) as [e|[[s t] req]]; [done|].
  unfold read_link. by rewrite Hnet.
Qed.

Lemma capacity_shape a b u v :
  map length a = map length b ->
  is_Some (capacity a u v) -> is_Some (capacity b u v).
Proof.
  intros Hs [x Hx]. unfold capacity, entry in *.
  destruct (a !! Z.to_nat (u - 1)) as [row|] eqn:Hrow; [|done].
  assert (map length b !! Z.to_nat (u - 1) = Some (length row)) as Hm.
  { rewrite <-Hs. change (map length a) with (length <$> a).
    by rewrite list_lookup_fmap, Hrow. }
  change (map length b) with (length <$> b) in Hm.
  rewrite list_lookup_fmap in Hm.
  destruct (b !! Z.to_nat (u - 1)) as [row'|]; [|done].
  injection Hm as Hm. apply lookup_lt_is_Some_2. rewrite Hm.
  by eapply lookup_lt_Some.
Qed.

Lemma placed_shape net net' d m i :
  map length net' = map length net -> placed net d m i -> placed net' d m i.
Proof.
  intros Hs (u & v & req & cap & Hu & Hv & Hreq & ? & ? & Hcap).
  destruct (capacity_shape net net' u v) as [cap' Hcap']; [done|by eexists|].
  exists u, v, req, cap'. by split_and!.
Qed.

Lemma with_substrate_same self :
  with_substrate (substrate_network self) self = self.
Proof. by destruct self. Qed.

(** One turn of the second loop on a link that can be read. *)
Lemma committed_link_int64 net d m i u v req x :
  m !! i = Some u -> m !! S i = Some v -> bandwidth d !! i = Some req ->
  1 <= u -> 1 <= v -> capacity net u v = Some x -> int64 req ->
  np_isub net (u - 1) (v - 1) req = inr (committed_link d m net i) /\
  map length (committed_link d m net i) = map length net /\
  forall u' v', 1 <= u' -> 1 <= v' ->
    capacity (committed_link d m net i) u' v'
    = if decide (u' = u /\ v' = v) then Some (sub64 x req)
      else capacity net u' v'.
Proof.
  intros Hu Hv Hreq Hu1 Hv1 Hx Hfit.
  destruct (np_isub_capacity net u v req x) as (net' & Hsub & Hshape & Hcap);
    [done..|].
  unfold committed_link. rewrite (link_lookup d m i u v req) by done.
  unfold Ok. by rewrite Hsub.
Qed.

Lemma committed_shape d m past net :
  (forall i, i ∈ past -> placed net d m i) ->
  map length (committed d m net past) = map length net.
Proof.
  unfold committed. revert net.
  induction past as [|i past IH]; intros net Hp; simpl; [done|].
  destruct (Hp i) as (u & v & req & x & Hu & Hv & Hreq & ? & ? & Hx); [by left|].
  assert (map length (committed_link d m net i) = map length net) as Hs.
  { destruct (int64b_spec req) as [Hfit|Hfit].
    - by destruct (committed_link_int64 net d m i u v req x) as (_ & ? & _).
    - unfold committed_link. rewrite (link_lookup d m i u v req) by done.
      unfold Ok. by rewrite (np_isub_overflow net u v req x). }
  rewrite IH; [done|]. intros j Hj. apply (placed_shape net); [done|].
  apply Hp. by right.
Qed.

(** The second loop, on links that can be read: it commits the links one
    after the other and returns, or stops with [OverflowError] at the
    first link whose requirement is not an int64 integer, leaving the
    links before it committed. *)
Lemma assign_resources_run d m ixs self net :
  substrate_network self = Some net ->
  (forall i, i ∈ ixs -> placed net d m i) ->
  exists past tail,
    ixs = past ++ tail /\
    Forall (fun i => exists req, bandwidth d !! i = Some req /\ int64 req) past /\
    ((tail = [] /\
      assign_resources d m ixs self
      = (inr tt, with_substrate (Some (committed d m net past)) self, [])) \/
     ((exists i tail' req, tail = i :: tail' /\ bandwidth d !! i = Some req /\
                           ~ int64 req) /\
      assign_resources d m ixs self
      = (inl OverflowError,
         with_substrate (Some (committed d m net past)) self, []))).
Proof.
  revert self net. induction ixs as [|i ixs IH]; intros self net Hnet Hall.
  - exists [], []. split_and!; [done|constructor|]. left. split; [done|].
    simpl. run. by rewrite <-Hnet, with_substrate_same.
  - destruct (Hall i) as (u & v & req & x & Hu & Hv & Hreq & Hu1 & Hv1 & Hx);
      [by left|].
    destruct (int64b_spec req) as [Hfit|Hfit].
    + destruct (committed_link_int64 net d m i u v req x)
        as (Hsub & Hshape & _); [done..|].
      destruct (IH (with_substrate (Some (committed_link d m net i)) self)
                   (committed_link d m net i))
        as (past & tail & -> & Hdone & Hrun); [done| |].
      { intros j Hj. apply (placed_shape net); [done|]. apply Hall. by right. }
      exists (i :: past), tail. split_and!; [done|constructor; eauto|].
      assert (forall r,
                assign_resources d m (past ++ tail)
                  (with_substrate (Some (committed_link d m net i)) self)
                = (r, with_substrate
                        (Some (committed d m (committed_link d m net i) past))
                        (with_substrate (Some (committed_link d m net i)) self),
                   []) ->
                assign_resources d m (i :: past ++ tail) self
                = (r, with_substrate (Some (committed d m net (i :: past))) self,
                   [])) as Hstep.
      { intros r Hr. simpl. run. rewrite (link_lookup d m i u v req) by done.
        simpl. unfold consume_link. rewrite Hnet, Hsub. simpl.
        rewrite Hr. done. }
      destruct Hrun as [[-> Hrun]|[Hover Hrun]].
      * left. split; [done|]. by apply Hstep.
      * right. split; [done|]. by apply Hstep.
    + exists [], (i :: ixs). split_and!; [done|constructor|]. right.
      split; [by exists i, ixs, req|].
      simpl. run. rewrite (link_lookup d m i u v req) by done. simpl.
      unfold consume_link. rewrite Hnet.
      rewrite (np_isub_overflow net u v req x) by done.
      by rewrite <-Hnet, with_substrate_same.
Qed.

(** ** [allocate_demand] *)


(** When every link passes the test, the call commits the links and
    records the mapping, or stops at the first requirement that is not an
    int64 integer. *)
Lemma allocate_demand_run d m self net :
  substrate_network self = Some net ->
  (forall i, i ∈ links d -> placed net d m i) ->
  links_fit net d m (links d) = inr true ->
  exists past tail,
    links d = past ++ tail /\
    Forall (fun i => exists req, bandwidth d !! i = Some req /\ int64 req) past /\
    ((tail = [] /\
      allocate_demand d m self
      = (inr true,
         with_allocations (<[demand_id d := m]> (allocations self))
           (with_substrate (Some (committed d m net past)) self), [])) \/
     ((exists i tail' req, tail = i :: tail' /\ bandwidth d !! i = Some req /\
                           ~ int64 req) /\
      allocate_demand d m self
      = (inl OverflowError,
         with_substrate (Some (committed d m net past)) self, []))).
Proof.
  intros Hnet Hplaced Hfit.
  destruct (assign_resources_run d m (links d) self net Hnet Hplaced)
    as (past & tail & Hsplit & Hdone & Hrun).
  exists past, tail. split_and!; [done..|].
  unfold allocate_demand, bindM.
  rewrite (enough_bandwidth_links_fit _ _ _ _ net Hnet), Hfit.
  destruct Hrun as [[-> Hrun]|[Hover Hrun]]; rewrite Hrun; [left|right]; by run.
Qed.

(** A mapping on labels from 1 that passes the test has its links placed. *)
Lemma links_fit_true_placed net d m ixs :
  Forall (fun x => 1 <= x) m ->
  links_fit net d m ixs = inr true ->
  forall i, i ∈ ixs -> placed net d m i /\ link_fits net d m i.
Proof.
  intros Hm Hfit i Hi. rewrite Forall_forall in Hm.
  destruct (links_fit_true _ _ _ _ Hfit i Hi) as (s & t & req & x & Hl & Hx & Hle).
  apply link_Ok in Hl as (u & v & Hu & Hv & Hreq & -> & ->).
  pose proof (Hm u (list_elem_of_lookup_2 _ _ _ Hu)).
  pose proof (Hm v (list_elem_of_lookup_2 _ _ _ Hv)).
  rewrite np_get_capacity in Hx by done.
  destruct (capacity net u v) as [cap|] eqn:Hcap; [|done].
  injection Hx as ->.
  split; exists u, v, req, x; by split_and!.
Qed.

(** ** What an injective mapping asks of one arc *)

Lemma asked_none d m u v ixs :
  (forall i, i ∈ ixs -> m !! i <> Some u) ->
  foldr Z.add 0 (map (asked_of_link d m u v) ixs) = 0.
Proof.
  induction ixs as [|i ixs IH]; simpl; intros Hall; [done|].
  rewrite IH by (intros; apply Hall; by right).
  unfold asked_of_link. specialize (Hall i (list_elem_of_here _ _)).
  repeat case_match; try done. destruct_and?. by subst.
Qed.

Lemma asked_once d m u v ixs x :
  NoDup m -> NoDup ixs -> 0 <= x ->
  (forall i, i ∈ ixs -> 0 <= asked_of_link d m u v i <= x) ->
  0 <= foldr Z.add 0 (map (asked_of_link d m u v) ixs) <= x.
Proof.
  intros Hm. induction ixs as [|i ixs IH]; simpl; intros Hixs Hx Hall; [lia|].
  apply NoDup_cons in Hixs as [Hi Hixs].
  pose proof (Hall i (list_elem_of_here _ _)) as Hbound.
  destruct (decide (m !! i = Some u)) as [Hu|Hu].
  - rewrite asked_none; [lia|].
    intros j Hj Hj'. assert (i = j) by (by apply (NoDup_lookup m i j u)). by subst.
  - assert (asked_of_link d m u v i = 0) as ->.
    { unfold asked_of_link. repeat case_match; try done.
      destruct_and?. by subst. }
    rewrite Z.add_0_l. apply IH; [done..|]. intros; apply Hall; by right.
Qed.

(** ** The array after a commit *)

Lemma sub64_zero x : sub64 x 0 = x.
Proof.
  unfold sub64. destruct (int64b_spec x) as [Hx|_]; [|lia].
  rewrite Z.sub_0_r. by apply wrap64_id.
Qed.

Lemma asked_once_or_none d m u v ixs x :
  NoDup m -> NoDup ixs ->
  (forall i, i ∈ ixs ->
     asked_of_link d m u v i = 0 \/ 0 <= asked_of_link d m u v i <= x) ->
  foldr Z.add 0 (map (asked_of_link d m u v) ixs) = 0 \/
  0 <= foldr Z.add 0 (map (asked_of_link d m u v) ixs) <= x.
Proof.
  intros Hm. induction ixs as [|i ixs IH]; simpl; intros Hixs Hall; [by left|].
  apply NoDup_cons in Hixs as [Hi Hixs].
  pose proof (Hall i (list_elem_of_here _ _)) as Hbound.
  destruct (decide (m !! i = Some u)) as [Hu|Hu].
  - rewrite asked_none; [lia|].
    intros j Hj Hj'. assert (i = j) by (by apply (NoDup_lookup m i j u)). by subst.
  - assert (asked_of_link d m u v i = 0) as ->.
    { unfold asked_of_link. repeat case_match; try done.
      destruct_and?. by subst. }
    rewrite Z.add_0_l. apply IH; [done|]. intros; apply Hall; by right.
Qed.

(** Under an injective mapping every arc is committed at most once: an arc
    loses, in int64, what the committed links ask of it. *)
Lemma committed_capacity d m past net :
  NoDup m -> NoDup past ->
  (forall i, i ∈ past -> placed net d m i) ->
  Forall (fun i => exists req, bandwidth d !! i = Some req /\ int64 req) past ->
  forall u v, 1 <= u -> 1 <= v ->
    capacity (committed d m net past) u v
    = (fun x => sub64 x (foldr Z.add 0 (map (asked_of_link d m u v) past)))
        <$> capacity net u v.
Proof.
  intros Hm. unfold committed. revert net.
  induction past as [|i past IH]; intros net Hnd Hp Hfit u v Hu Hv; simpl.
  - destruct (capacity net u v); simpl; [|done]. by rewrite sub64_zero.
  - apply NoDup_cons in Hnd as [Hi Hnd]. apply Forall_cons in Hfit as [Hreq Hfit].
    destruct (Hp i) as (u0 & v0 & req & x0 & Hu0 & Hv0 & Hr0 & ? & ? & Hx0);
      [by left|].
    destruct Hreq as (req' & Hr0' & Hint). assert (req' = req) as -> by congruence.
    destruct (committed_link_int64 net d m i u0 v0 req x0)
      as (_ & Hshape & Hcap1); [done..|].
    rewrite IH; [|done| |done..].
    2:{ intros j Hj. apply (placed_shape net); [done|]. apply Hp. by right. }
    rewrite Hcap1 by done. unfold asked_of_link at 2. rewrite Hu0, Hv0, Hr0.
    destruct (decide (u = u0 /\ v = v0)) as [[-> ->]|Hne].
    + rewrite decide_True by done. rewrite asked_none.
      * rewrite Hx0. simpl. by rewrite sub64_zero, Z.add_0_r.
      * intros j Hj Hj'. assert (i = j) by (by apply (NoDup_lookup m i j u0)).
        by subst.
    + rewrite decide_False by (intros [??]; apply Hne; split; congruence).
      by rewrite Z.add_0_l.
Qed.

(** With requirements that are not negative, committing links that find
    their bandwidth under an injective mapping leaves every arc at most
    where it was, and not negative if it was not. *)
Lemma committed_between d m past net u v r :
  NoDup m -> NoDup past ->
  Forall (fun b => 0 <= b) (bandwidth d) ->
  (forall i, i ∈ past -> placed net d m i /\ link_fits net d m i) ->
  Forall (fun i => exists req, bandwidth d !! i = Some req /\ int64 req) past ->
  1 <= u -> 1 <= v ->
  capacity (committed d m net past) u v = Some r ->
  exists x, capacity net u v = Some x /\ r <= x /\ (0 <= x -> 0 <= r).
Proof.
  intros Hm Hnd Hbw Hp Hfit Hu Hv Hr.
  rewrite (committed_capacity d m past net) in Hr;
    [|done|done|by intros; apply Hp|done..].
  destruct (capacity net u v) as [x|] eqn:Hx; [|done]. injection Hr as <-.
  exists x. split; [done|].
  destruct (asked_once_or_none d m u v past x Hm Hnd) as [->|Hsum].
  - intros i Hi. destruct (Hp i Hi) as [_ (a & b & req & cap & Ha & Hb & Hreq & Hc & Hle)].
    unfold asked_of_link. rewrite Ha, Hb, Hreq.
    rewrite Forall_forall in Hbw.
    pose proof (Hbw req (list_elem_of_lookup_2 _ _ _ Hreq)).
    case_decide as Heq; [|by left]. destruct Heq as [-> ->]. simplify_eq.
    right. lia.
  - rewrite sub64_zero. lia.
  - rewrite sub64_exact by done. lia.
Qed.


(** ** The body of the loop of [process_all_demands] *)

Lemma for_each_print l self : for_each l print self = (inr tt, self, l).
Proof.
  induction l as [|e l IH]; simpl; [done|]. run. by rewrite IH.
Qed.

Lemma processed_app out out' :
  processed (out ++ out') = processed out ++ processed out'.
Proof. apply omap_app. Qed.

Lemma processed_options_gen (f : nat -> mapping -> event) l :
  (forall i a, exists n, f i a = Opcion n a) -> processed (imap f l) = [].
Proof.
  revert f. induction l as [|a l IH]; intros f Hf; [done|].
  unfold processed in *. simpl. destruct (Hf 0%nat a) as [n ->].
  apply IH. intros i b. apply Hf.
Qed.

Lemma processed_options l :
  processed (imap (fun i a => Opcion (S i) a) l) = [].
Proof. apply processed_options_gen. intros; by eexists. Qed.

(** [process_demand], one case for each way through its body. *)
Lemma process_demand_eq d self :
  process_demand d self =
  match find_all_possible_allocations self d with
  | inl e => (inl e, self, [Procesando (demand_id d)])
  | inr [] =>
      (inr tt, with_rejected (rejected_demands self ++ [d]) self,
       [Procesando (demand_id d); Posibles (demand_id d);
        NoHayAsignaciones; RechazadaSinAsignaciones (demand_id d)])
  | inr (m :: rest) =>
      let options := imap (fun i a => Opcion (S i) a) (m :: rest) in
      match allocate_demand d m self with
      | (inl e, self', out) =>
          (inl e, self',
           Procesando (demand_id d) :: Posibles (demand_id d) :: options ++ out)
      | (inr true, self', out) =>
          (inr tt, with_accepted (accepted_demands self' ++ [d]) self',
           Procesando (demand_id d) :: Posibles (demand_id d) :: options
             ++ out ++ [Aceptada (demand_id d) m])
      | (inr false, self', out) =>
          (inr tt, with_rejected (rejected_demands self' ++ [d]) self',
           Procesando (demand_id d) :: Posibles (demand_id d) :: options
             ++ out ++ [RechazadaRecursos (demand_id d)])
      end
  end.
Proof.
  unfold process_demand. run.
  destruct (find_all_possible_allocations self d) as [e|[|m rest]]; [done..|].
  rewrite for_each_print.
  destruct (allocate_demand d m self) as [[[e|[|]] self'] out]; simpl;
    by rewrite ?app_nil_r.
Qed.

(** The body of the loop ends in one of four ways: the enumerator raises
    and nothing changes; it finds no mapping and the demand is rejected; it
    finds some, the first is committed and the demand is accepted; or the
    commit of the first stops with [OverflowError] at a requirement that
    is not an int64 integer, the links before it committed and the demand
    not filed. The commit is never refused. *)
Lemma process_demand_outcome d self :
  (exists e, process_demand d self = (inl e, self, [Procesando (demand_id d)])) \/
  (find_all_possible_allocations self d = inr [] /\
   process_demand d self
   = (inr tt, with_rejected (rejected_demands self ++ [d]) self,
      [Procesando (demand_id d); Posibles (demand_id d);
       NoHayAsignaciones; RechazadaSinAsignaciones (demand_id d)])) \/
  (exists net m rest past tail,
     substrate_network self = Some net /\
     find_all_possible_allocations self d = inr (m :: rest) /\
     (length m = length (demand_path d) /\ NoDup m /\
      Forall (fun x => 1 <= x <= Z.of_nat (length net)) m) /\
     (forall i, i ∈ links d -> placed net d m i /\ link_fits net d m i) /\
     links d = past ++ tail /\
     Forall (fun i => exists req, bandwidth d !! i = Some req /\ int64 req) past /\
     ((tail = [] /\
       process_demand d self
       = (inr tt,
          with_accepted (accepted_demands self ++ [d])
            (with_allocations (<[demand_id d := m]> (allocations self))
               (with_substrate (Some (committed d m net past)) self)),
          Procesando (demand_id d) :: Posibles (demand_id d)
            :: imap (fun i a => Opcion (S i) a) (m :: rest)
            ++ [Aceptada (demand_id d) m])) \/
      ((exists i tail' req, tail = i :: tail' /\ bandwidth d !! i = Some req /\
                            ~ int64 req) /\
       process_demand d self
       = (inl OverflowError,
          with_substrate (Some (committed d m net past)) self,
          Procesando (demand_id d) :: Posibles (demand_id d)
            :: imap (fun i a => Opcion (S i) a) (m :: rest))))).
Proof.
  rewrite process_demand_eq.
  destruct (find_all_possible_allocations self d) as [e|[|m rest]] eqn:Hfind.
  - left. by exists e.
  - right; left. done.
  - right; right.
    apply find_all_possible_allocations_elem in Hfind as (net & Hnet & _ & Hl).
    destruct (proj1 (Hl m)) as ((Hlen & Hnd & Hm) & Hfit); [by left|].
    assert (Forall (fun x => 1 <= x) m) as Hm1.
    { eapply Forall_impl; [exact Hm|]. simpl. intros; lia. }
    pose proof (links_fit_true_placed net d m (links d) Hm1 Hfit) as Hlinks.
    destruct (allocate_demand_run d m self net Hnet) as (past & tail & Hsplit & Hpast & Hrun);
      [intros; by apply Hlinks|done|].
    exists net, m, rest, past, tail. cbv zeta.
    split_and!; [done..|].
    destruct Hrun as [[-> Hrun]|[Hover Hrun]]; rewrite Hrun; [left|right].
    + split; [done|]. by rewrite app_nil_l.
    + split; [done|]. by rewrite app_nil_r.
Qed.

(** The placed links of an accepted or interrupted commit. *)
Lemma past_links (P : nat -> Prop) (ixs past tail : list nat) :
  ixs = past ++ tail -> (forall i, i ∈ ixs -> P i) -> forall i, i ∈ past -> P i.
Proof. intros -> H i Hi. apply H, elem_of_app. by left. Qed.

Lemma past_NoDup d past tail : links d = past ++ tail -> NoDup past.
Proof.
  intros Hsplit. assert (NoDup (links d)) as Hnd by apply NoDup_seq.
  rewrite Hsplit in Hnd. by apply NoDup_app in Hnd as (? & _).
Qed.

(** The baseline and the demand list are out of reach of the loop body. *)
Lemma process_demand_frame d self :
  original_substrate (state (process_demand d self)) = original_substrate self /\
  demands (state (process_demand d self)) = demands self.
Proof.
  destruct (process_demand_outcome d self)
    as [[e ->]|[[_ ->]|(net & m & rest & past & tail & _ & _ & _ & _ & _ & _
                        & [[_ ->]|[_ ->]])]]; done.
Qed.

(** A demand with non-negative requirements keeps the residual capacities
    between 0 and the baseline. *)
Lemma process_demand_bounded d self :
  Forall (fun b => 0 <= b) (bandwidth d) ->
  bounded self -> bounded (state (process_demand d self)).
Proof.
  intros Hbw (net & orig & Hnet & Horig & Hshape & Hin).
  destruct (process_demand_outcome d self)
    as [[e ->]|[[_ ->]|(net0 & m & rest & past & tail & Hnet0 & _
                        & (_ & Hnd & _) & Hlinks & Hsplit & Hpast & Hrun)]];
    [by exists net, orig..|].
  assert (net0 = net) as -> by congruence.
  assert (bounded (with_substrate (Some (committed d m net past)) self)) as Hb.
  { exists (committed d m net past), orig. split_and!; [done|done| |].
    - rewrite committed_shape; [done|].
      apply (past_links _ _ _ _ Hsplit). intros; by apply Hlinks.
    - intros u v r Hu Hv Hr.
      destruct (committed_between d m past net u v r) as (x & Hx & Hle & Hpos);
        [done|by eapply past_NoDup|done|by apply (past_links _ _ _ _ Hsplit)
        |done..|].
      destruct (Hin u v x Hu Hv Hx) as (o & Ho & Hxo).
      exists o. split; [done|]. lia. }
  destruct Hrun as [[_ ->]|[_ ->]]; [|done].
  destruct Hb as (net' & orig' & ? & ? & ? & ?). by exists net', orig'.
Qed.

Lemma square_shape net net' :
  map length net' = map length net -> square net -> square net'.
Proof.
  intros Hshape Hsq. unfold square in *.
  assert (length net' = length net) as Hlen'.
  { by rewrite <-(length_map length net'), Hshape, length_map. }
  apply Forall_forall. intros row Hrow.
  apply list_elem_of_lookup in Hrow as [i Hi].
  assert (map length net !! i = Some (length row)) as Hrow'.
  { rewrite <-Hshape. change (map length net') with (length <$> net').
    by rewrite list_lookup_fmap, Hi. }
  change (map length net) with (length <$> net) in Hrow'.
  rewrite list_lookup_fmap in Hrow'.
  destruct (net !! i) as [row0|] eqn:Hrow0; [|done].
  injection Hrow' as Hrow'. rewrite Hlen', <-Hrow'.
  rewrite Forall_forall in Hsq. apply Hsq. by eapply list_elem_of_lookup_2.
Qed.

(** On a square substrate, a demand that lists an int64 requirement for
    each link is processed to the end and reaches exactly one of the two
    records. *)
Lemma process_demand_total d self net :
  substrate_network self = Some net -> square net -> demand_ok d ->
  int64_demand d ->
  exists self' out,
    process_demand d self = (inr tt, self', out) /\
    processed out = [demand_id d] /\
    (exists net', substrate_network self' = Some net' /\ square net') /\
    demands self' = demands self /\
    ((accepted_demands self' = accepted_demands self ++ [d] /\
      rejected_demands self' = rejected_demands self) \/
     (accepted_demands self' = accepted_demands self /\
      rejected_demands self' = rejected_demands self ++ [d])).
Proof.
  intros Hnet Hsq Hd Hint. rewrite process_demand_eq.
  destruct (find_all_possible_allocations_feasible self d net Hnet Hsq Hd)
    as (l & -> & _ & Hl).
  destruct l as [|m rest].
  - do 2 eexists. split_and!; [done|done|by exists net|done|by right].
  - destruct (proj1 (Hl m)) as (Hlen & Hnd & Hm & Hfits); [by left|].
    assert (forall i, i ∈ links d -> placed net d m i) as Hplaced.
    { intros i Hi%elem_of_links. by apply placed_well_formed. }
    destruct (links_fit_placed net d m (links d) Hplaced) as (b & Hb & Hiff).
    assert (b = true) as ->.
    { apply Hiff. intros i Hi%elem_of_links. by apply Hfits. }
    destruct (allocate_demand_run d m self net Hnet Hplaced Hb)
      as (past & tail & Hsplit & Hpast
          & [[-> Halloc]|[(i & tail' & req & -> & Hreq & Hno) _]]).
    + unfold Ok. cbv zeta. rewrite Halloc.
      do 2 eexists. split_and!; [done| | |done|by left].
      * change (processed ([Procesando (demand_id d); Posibles (demand_id d)]
                           ++ imap (fun i a => Opcion (S i) a) (m :: rest)
                           ++ [Aceptada (demand_id d) m]) = [demand_id d]).
        by rewrite !processed_app, processed_options.
      * eexists. split; [done|]. apply (square_shape net); [|done].
        apply committed_shape, (past_links _ _ _ _ Hsplit), Hplaced.
    + destruct Hno. unfold int64_demand in Hint. rewrite Forall_forall in Hint.
      apply Hint. by eapply list_elem_of_lookup_2.
Qed.

(** ** The loop and [process_all_demands] *)

Lemma for_each_state_inv {A} (P : NetworkProcessor -> Prop)
    (body : A -> M unit) l self :
  (forall x s, x ∈ l -> P s -> P (state (body x s))) ->
  P self -> P (state (for_each l body self)).
Proof.
  revert self. induction l as [|x l IH]; intros self Hbody Hself; [done|].
  simpl. unfold bindM.
  pose proof (Hbody x self (list_elem_of_here _ _) Hself) as Hx.
  destruct (body x self) as [[[e|[]] s] out]; [done|].
  unfold state in Hx. simpl in Hx.
  specialize (IH s (fun y s' Hy => Hbody y s' (list_elem_of_further _ _ _ Hy)) Hx).
  by destruct (for_each l body s) as [[r s'] out'].
Qed.

Lemma process_all_demands_eq self :
  process_all_demands self =
  let sorted := with_demands (list_sort total_bandwidth (demands self)) self in
  match for_each (demands sorted) process_demand sorted with
  | (inl e, self', out) => (inl e, self', out)
  | (inr _, self', out) => (inr (get_acceptance_ratio self'), self', out)
  end.
Proof.
  unfold process_all_demands. run.
  destruct (for_each _ process_demand _) as [[[e|[]] self'] out]; [done|].
  by rewrite app_nil_r.
Qed.

Lemma process_all_demands_state self :
  state (process_all_demands self)
  = let sorted := with_demands (list_sort total_bandwidth (demands self)) self in
    state (for_each (demands sorted) process_demand sorted).
Proof.
  rewrite process_all_demands_eq. cbv zeta.
  by destruct (for_each _ process_demand _) as [[[e|[]] self'] out].
Qed.

Lemma process_all_demands_frame self :
  original_substrate (state (process_all_demands self)) = original_substrate self /\
  demands (state (process_all_demands self))
  = list_sort total_bandwidth (demands self).
Proof.
  rewrite process_all_demands_state. cbv zeta.
  apply (for_each_state_inv
           (fun s => original_substrate s = original_substrate self /\
                     demands s = list_sort total_bandwidth (demands self)));
    [|done].
  intros d s _ [Ho Hd]. destruct (process_demand_frame d s) as [-> ->]. done.
Qed.

(** The loop on a square substrate and well-formed demands. *)
Lemma process_loop_total ds self net :
  substrate_network self = Some net -> square net ->
  Forall demand_ok ds -> Forall int64_demand ds ->
  exists self' out,
    for_each ds process_demand self = (inr tt, self', out) /\
    processed out = map demand_id ds /\
    (exists net', substrate_network self' = Some net' /\ square net') /\
    demands self' = demands self /\
    accepted_demands self' ++ rejected_demands self'
      ≡ₚ (accepted_demands self ++ rejected_demands self) ++ ds.
Proof.
  revert self net. induction ds as [|d ds IH]; intros self net Hnet Hsq Hds Hint.
  - exists self, []. split_and!; [done|done|by exists net|done|].
    by rewrite app_nil_r.
  - apply Forall_cons in Hds as [Hd Hds]. apply Forall_cons in Hint as [Hi Hint].
    destruct (process_demand_total d self net Hnet Hsq Hd Hi)
      as (s1 & out1 & Hrun1 & Hout1 & (net1 & Hnet1 & Hsq1) & Hdem1 & Hrec).
    destruct (IH s1 net1 Hnet1 Hsq1 Hds Hint)
      as (s2 & out2 & Hrun2 & Hout2 & Hwf2 & Hdem2 & Hperm).
    exists s2, (out1 ++ out2). split_and!; [| |done|congruence|].
    + simpl. unfold bindM. by rewrite Hrun1, Hrun2.
    + rewrite processed_app, Hout1, Hout2. done.
    + rewrite Hperm.
      destruct Hrec as [[-> ->]|[-> ->]]; rewrite <- !app_assoc; simpl.
      * apply Permutation_app_head, Permutation_middle.
      * done.
Qed.

(** A full pass on a well-formed processor whose demands have int64
    requirements. *)
Lemma process_all_demands_total self :
  well_formed self -> Forall int64_demand (demands self) ->
  exists self' out,
    process_all_demands self = (inr (get_acceptance_ratio self'), self', out) /\
    processed out = map demand_id (list_sort total_bandwidth (demands self)) /\
    (well_formed self' /\ Forall int64_demand (demands self')) /\
    demands self' = list_sort total_bandwidth (demands self) /\
    accepted_demands self' ++ rejected_demands self'
      ≡ₚ (accepted_demands self ++ rejected_demands self) ++ demands self.
Proof.
  intros (net & Hnet & Hsq & Hds) Hint.
  pose proof (list_sort_perm total_bandwidth (demands self)) as Hperm.
  destruct (process_loop_total (list_sort total_bandwidth (demands self))
              (with_demands (list_sort total_bandwidth (demands self)) self) net)
    as (self' & out & Hrun & Hout & (net' & Hnet' & Hsq') & Hdem & Hrec);
    [done|done|by rewrite Hperm|by rewrite Hperm|].
  exists self', out. rewrite process_all_demands_eq. cbv zeta.
  simpl in *. rewrite Hrun. split_and!; [done|done| | |done|].
  - exists net'. split_and!; [done..|]. by rewrite Hdem, Hperm.
  - by rewrite Hdem, Hperm.
  - by rewrite Hrec, Hperm.
Qed.

(** ** Setting up and resetting *)

Lemma add_demands_run ds self :
  add_demands ds self = (inr tt, with_demands (demands self ++ ds) self, []).
Proof.
  unfold add_demands. revert self.
  induction ds as [|d ds IH]; intros self; simpl.
  - run. rewrite app_nil_r. by destruct self.
  - run. rewrite IH. simpl. destruct d. simpl.
    by rewrite <-app_assoc.
Qed.

Lemma prepared_eq a ds : prepared a ds = Processor (Some a) (Array a) ds [] [] ∅.
Proof.
  unfold prepared, set_substrate_network. run.
  rewrite add_demands_run. done.
Qed.

Lemma reset_run self :
  reset self =
  match original_substrate self with
  | Missing =>
      (inl AttributeError,
       Processor (substrate_network self) Missing [] [] [] ∅, [])
  | NoneVal => (inr tt, Processor (substrate_network self) NoneVal [] [] [] ∅, [])
  | Array a => (inr tt, Processor (Some a) (Array a) [] [] [] ∅, [])
  end.
Proof.
  destruct self as [sub [| |a] ds acc rej al]; reflexivity.
Qed.

Lemma within_baseline a :
  Forall (Forall (fun x => 0 <= x)) a -> within a a.
Proof.
  intros Ha u v r _ _ Hr. exists r. split; [done|].
  unfold capacity, entry in Hr.
  destruct (a !! Z.to_nat (u - 1)) as [row|] eqn:Hrow; [|done].
  rewrite Forall_forall in Ha.
  pose proof (Ha row (list_elem_of_lookup_2 _ _ _ Hrow)) as Hpos.
  rewrite Forall_forall in Hpos.
  pose proof (Hpos r (list_elem_of_lookup_2 _ _ _ Hr)). lia.
Qed.


Lemma reset_bounded self : bounded self -> bounded (state (reset self)).
Proof.
  intros (net & orig & Hnet & Horig & Hshape & Hin).
  rewrite reset_run, Horig. exists orig, orig. split_and!; [done..|].
  intros u v r Hu Hv Hr. exists r. split; [done|].
  destruct (capacity_shape orig net u v) as [x Hx]; [done|by eexists|].
  destruct (Hin u v x Hu Hv Hx) as (o & Ho & Hle).
  assert (o = r) by congruence. lia.
Qed.

Lemma set_substrate_network_bounded a self :
  Forall (Forall (fun x => 0 <= x)) a ->
  bounded (state (set_substrate_network a self)).
Proof.
  intros Ha. exists a, a. split_and!; [done..|]. by apply within_baseline.
Qed.

(** * The properties *)

(** C1. In the scenario of [main.py] (five substrate nodes, arcs 1->2:12,
    2->3:10, 2->4:7, 3->5:8, 4->5:6, demand A = 1 asking [8,8,5] and demand
    B = 2 asking [4,6,2]) the totals are 21 and 12, so B is processed first;
    its feasible mappings are [1,2,3,5] and [1,2,4,5], the first of which is
    allocated, leaving 1->2:8, 2->3:4, 3->5:6; A then has no feasible mapping
    and is rejected; the pass returns the ratio 1/2. *)
Theorem scenario_B_accepted_A_rejected :
  total_bandwidth demand_A = 21 /\ total_bandwidth demand_B = 12 /\
  scenario_start
    = Processor (Some substrate_example) (Array substrate_example)
                [demand_A; demand_B] [] [] ∅ /\
  let sorted := with_demands [demand_B; demand_A] scenario_start in
  let after_B := state (process_demand demand_B sorted) in
  let run := process_all_demands scenario_start in
  processed (output run) = [2; 1] /\
  find_all_possible_allocations sorted demand_B
    = Ok [[1; 2; 3; 5]; [1; 2; 4; 5]] /\
  allocations after_B = {[ 2 := [1; 2; 3; 5] ]} /\
  substrate_network after_B = Some residual_example /\
  capacity residual_example 1 2 = Some 8 /\
  capacity residual_example 2 3 = Some 4 /\
  capacity residual_example 3 5 = Some 6 /\
  find_all_possible_allocations after_B demand_A = Ok [] /\
  accepted_demands (state run) = [demand_B] /\
  rejected_demands (state run) = [demand_A] /\
  allocations (state run) = {[ 2 := [1; 2; 3; 5] ]} /\
  substrate_network (state run) = Some residual_example /\
  value run = Ok (1 # 2)%Q.
Proof. vm_compute. repeat split; reflexivity. Qed.

(** C2, as the code has it. On a processor whose substrate has been set,
    [reset] returns normally, makes the residual matrix equal to the
    baseline, and empties the accepted list, the rejected list, the
    allocations and the demand list as well. *)
Theorem reset_restores_and_clears self orig :
  original_substrate self = Array orig ->
  reset self = (Ok tt, Processor (Some orig) (Array orig) [] [] [] ∅, []).
Proof. intros H. by rewrite reset_run, H. Qed.

Lemma reset_restores_and_clears_witness :
  original_substrate (state (process_all_demands scenario_start))
    = Array substrate_example /\
  reset (state (process_all_demands scenario_start))
    = (Ok tt, Processor (Some substrate_example) (Array substrate_example)
                        [] [] [] ∅, []).
Proof.
  split; [vm_compute; reflexivity|].
  apply (reset_restores_and_clears _ substrate_example).
  vm_compute; reflexivity.
Defined.

(** C2 as stated fails: after [reset] the demand list of the scenario is not
    the one it was before the call. *)
Lemma reset_drops_demands :
  demands scenario_start = [demand_A; demand_B] /\
  demands (state (reset scenario_start)) = [] /\
  ~ demands (state (reset scenario_start)) = demands scenario_start.
Proof. vm_compute. repeat split; [done..|]. discriminate. Qed.

(** C3, as the code has it. For every substrate and demand list: a pass,
    then [reset], then the same demands added again, then a second pass
    gives the result (ratio or exception), the allocations and the output
    of the first pass. Without adding the demands again the second pass
    has nothing to process: it returns 0 and leaves the allocations empty
    whenever the substrate has been set. *)
Theorem rerun_after_reset_and_add a ds :
  let first := process_all_demands (prepared a ds) in
  let again :=
    (reset ;;; add_demands ds ;;; process_all_demands) (state first) in
  let bare := (reset ;;; process_all_demands) (state first) in
  value again = value first /\
  allocations (state again) = allocations (state first) /\
  output again = output first /\
  value bare = Ok 0%Q /\
  allocations (state bare) = ∅.
Proof.
  cbv zeta.
  assert (original_substrate (state (process_all_demands (prepared a ds)))
          = Array a) as Horig.
  { destruct (process_all_demands_frame (prepared a ds)) as [-> _].
    by rewrite prepared_eq. }
  unfold bindM. rewrite reset_run, Horig, add_demands_run. simpl.
  unfold with_demands. simpl. rewrite <-prepared_eq.
  destruct (process_all_demands (prepared a ds)) as [[r s] out] eqn:Hrun.
  split_and!; done.
Qed.

(** C3 as stated fails: in the scenario, the pass that follows [reset]
    finds no demand, allocates nothing and returns 0 where the first
    returned 1/2. *)
Lemma rerun_after_reset_differs :
  let first := process_all_demands scenario_start in
  let second := (reset ;;; process_all_demands) (state first) in
  value first = Ok (1 # 2)%Q /\ value second = Ok 0%Q /\
  allocations (state first) !! 2 = Some [1; 2; 3; 5] /\
  allocations (state second) !! 2 = None /\
  ~ (allocations (state second) = allocations (state first) /\
     value second = value first).
Proof.
  vm_compute. repeat split; [done..|]. intros [_ H]. discriminate H.
Qed.

(** C4, as the code has it. When the residual capacities lie between 0 and
    the baseline and no demand asks for a negative bandwidth, every
    operation keeps every residual capacity between 0 and the baseline: a
    pass of [process_all_demands], whether it returns or raises, the
    processing of each single demand and the commit it makes, [reset] and
    [add_demand]; and [set_substrate_network] establishes the bounds when it
    is given a matrix without negative entry. Neither the sign of a
    requirement nor the sign of a capacity is checked by the code. *)
Theorem operations_keep_residual_bounded self :
  bounded self ->
  Forall (fun d => Forall (fun b => 0 <= b) (bandwidth d)) (demands self) ->
  bounded (state (process_all_demands self)) /\
  (forall d s, d ∈ demands self -> bounded s ->
               bounded (state (process_demand d s))) /\
  bounded (state (reset self)) /\
  (forall i path bw, bounded (state (add_demand i path bw self))) /\
  (forall a s, Forall (Forall (fun x => 0 <= x)) a ->
               bounded (state (set_substrate_network a s))).
Proof.
  intros Hb Hds. split_and!.
  - rewrite process_all_demands_state. cbv zeta.
    apply for_each_state_inv; [|done].
    intros d s Hd Hs. apply process_demand_bounded; [|done].
    rewrite Forall_forall in Hds. apply Hds.
    simpl in Hd. by rewrite (list_sort_perm total_bandwidth (demands self)) in Hd.
  - intros d s Hd Hs. apply process_demand_bounded; [|done].
    rewrite Forall_forall in Hds. by apply Hds.
  - by apply reset_bounded.
  - intros i path bw. exact Hb.
  - intros a s. apply set_substrate_network_bounded.
Qed.

Lemma operations_keep_residual_bounded_witness :
  bounded (state (process_all_demands scenario_start)).
Proof.
  apply (operations_keep_residual_bounded scenario_start).
  - exists substrate_example, substrate_example.
    split; [reflexivity|]. split; [reflexivity|]. split; [reflexivity|].
    apply within_baseline. repeat constructor; lia.
  - repeat constructor; lia.
Defined.

(** C4 as stated fails: nothing checks the sign of a requirement, and a
    demand asking for [-3] on the arc 1->2 of capacity 5 is accepted and
    leaves a residual of 8 on that arc, above the baseline. *)
Lemma negative_requirement_exceeds_baseline :
  let final := state (process_all_demands negative_start) in
  bounded negative_start /\
  substrate_network final = Some [ [0; 8]; [0; 0] ] /\
  original_substrate final = Array [ [0; 5]; [0; 0] ] /\
  ~ bounded final.
Proof.
  cbv zeta. split_and!.
  - exists two_nodes, two_nodes. split_and!; [done..|].
    apply within_baseline. repeat constructor; lia.
  - vm_compute. reflexivity.
  - vm_compute. reflexivity.
  - intros (net & orig & Hnet & Horig & _ & Hin).
    vm_compute in Hnet, Horig. simplify_eq.
    destruct (Hin 1 2 8) as (o & Ho & Hle); [lia|lia|done|].
    vm_compute in Ho. simplify_eq. lia.
Qed.

(** C5. On a square substrate of [N] nodes, for a demand that lists a
    requirement for each of its links, the enumerator returns a list whose
    members are exactly the feasible mappings: the sequences of as many
    labels as the path has nodes, all different, taken from [1..N], each
    consecutive arc of which has a residual capacity (the capacity of
    [substrate_network], not of the baseline) at least the requirement of
    the link. The list is in increasing lexicographic order, and when it is
    not empty its first element is the mapping that the loop body commits:
    the residual array becomes the array with links of that mapping
    committed; either all of them, and then the first element is recorded
    under the identifier of the demand, the demand is accepted and the
    acceptance is announced with that mapping, or, when a requirement is
    not an int64 integer, only the links before it, and then the body
    raises [OverflowError] and files nothing. *)
Theorem find_all_possible_allocations_spec self net d :
  substrate_network self = Some net -> square net -> demand_ok d ->
  exists l,
    find_all_possible_allocations self d = Ok l /\
    (forall m, m ∈ l <-> feasible net d m) /\
    StronglySorted lex_lt l /\
    forall m rest, l = m :: rest ->
      let run := process_demand d self in
      exists past tail,
        links d = past ++ tail /\
        substrate_network (state run) = Some (committed d m net past) /\
        (int64_demand d -> tail = []) /\
        (tail = [] ->
         value run = Ok tt /\
         allocations (state run) !! demand_id d = Some m /\
         accepted_demands (state run) = accepted_demands self ++ [d] /\
         rejected_demands (state run) = rejected_demands self /\
         last (output run) = Some (Aceptada (demand_id d) m)) /\
        (tail <> [] ->
         value run = Raise OverflowError /\
         allocations (state run) = allocations self /\
         accepted_demands (state run) = accepted_demands self /\
         rejected_demands (state run) = rejected_demands self).
Proof.
  intros Hnet Hsq Hd.
  destruct (find_all_possible_allocations_feasible self d net Hnet Hsq Hd)
    as (l & Hfind & Hsorted & Hl).
  exists l. split_and!; [done..|].
  intros m rest ->. cbv zeta.
  destruct (process_demand_outcome d self)
    as [[e He]|[[Hnil _]|(net0 & m' & rest' & past & tail & Hnet0 & Hfind'
                          & _ & _ & Hsplit & Hpast & Hrun)]].
  - rewrite process_demand_eq, Hfind in He. unfold Ok in He. cbv zeta in He.
    destruct (allocate_demand d m self) as [[[e'|[|]] s'] out]; simplify_eq.
  - rewrite Hfind in Hnil. done.
  - rewrite Hfind in Hfind'. assert (net0 = net) as -> by congruence.
    injection Hfind' as <- <-.
    exists past, tail.
    destruct Hrun as [[-> Hrun]|[(i & tail' & req & -> & Hreq & Hno) Hrun]];
      rewrite Hrun; unfold value, state, output; cbn [fst snd].
    + split_and!; [done|done|done| |done].
      intros _. split_and!; [done| |done|done|].
      * simpl. apply lookup_insert_eq.
      * rewrite !app_comm_cons. apply last_snoc.
    + split_and!; [done|done| |done|done].
      intros Hint. destruct Hno. unfold int64_demand in Hint.
      rewrite Forall_forall in Hint. apply Hint.
      by eapply list_elem_of_lookup_2.
Qed.

Lemma find_all_possible_allocations_spec_witness :
  exists l,
    find_all_possible_allocations scenario_start demand_B = Ok l /\
    (forall m, m ∈ l <-> feasible substrate_example demand_B m) /\
    StronglySorted lex_lt l /\
    forall m rest, l = m :: rest ->
      let run := process_demand demand_B scenario_start in
      exists past tail,
        links demand_B = past ++ tail /\
        substrate_network (state run)
          = Some (committed demand_B m substrate_example past) /\
        (int64_demand demand_B -> tail = []) /\
        (tail = [] ->
         value run = Ok tt /\
         allocations (state run) !! demand_id demand_B = Some m /\
         accepted_demands (state run)
           = accepted_demands scenario_start ++ [demand_B] /\
         rejected_demands (state run) = rejected_demands scenario_start /\
         last (output run) = Some (Aceptada (demand_id demand_B) m)) /\
        (tail <> [] ->
         value run = Raise OverflowError /\
         allocations (state run) = allocations scenario_start /\
         accepted_demands (state run) = accepted_demands scenario_start /\
         rejected_demands (state run) = rejected_demands scenario_start).
Proof.
  apply (find_all_possible_allocations_spec scenario_start substrate_example
           demand_B).
  - reflexivity.
  - repeat constructor.
  - unfold demand_ok. simpl. lia.
Defined.

(** The key of the sort is the sum of the requirements. *)
Lemma fold_left_add_foldr l x : fold_left Z.add l x = x + foldr Z.add 0 l.
Proof.
  revert x. induction l as [|y l IH]; intros x; simpl; [lia|].
  rewrite IH. lia.
Qed.





Lemma int64_array_cells a u v x :
  int64_array a -> capacity a u v = Some x -> int64 x.
Proof.
  unfold int64_array, capacity, entry. intros Ha Hx.
  destruct (a !! Z.to_nat (u - 1)) as [row|] eqn:Hrow; [|done].
  eapply Forall_lookup_1; [|exact Hx].
  eapply (Forall_lookup_1 (Forall int64)); [exact Ha|exact Hrow].
Qed.




(** C8, as the code has it. [set_substrate_network] makes no test on the
    matrix it is given: for every matrix and every processor it returns
    normally, stores the matrix as the baseline and as the residual
    capacities, and leaves the other attributes alone. *)
Theorem set_substrate_network_stores a self :
  set_substrate_network a self
  = (Ok tt,
     Processor (Some a) (Array a) (demands self) (accepted_demands self)
               (rejected_demands self) (allocations self),
     []).
Proof. reflexivity. Qed.

(** C8 as stated fails: a matrix of one row and three columns with a
    negative entry is stored, and the call returns normally. *)
Lemma set_substrate_network_no_validation :
  ~ square lopsided /\
  ~ Forall (Forall (fun x => 0 <= x)) lopsided /\
  set_substrate_network lopsided init
  = (Ok tt, Processor (Some lopsided) (Array lopsided) [] [] [] ∅, []).
Proof.
  split_and!.
  - intros H. apply Forall_cons in H as [H _]. simpl in H. lia.
  - intros H. apply Forall_cons in H as [H _].
    apply Forall_cons in H as [_ H]. apply Forall_cons in H as [H _]. lia.
  - reflexivity.
Qed.

(** C9. [process_all_demands] stores the sorted list in the processor:
    when the call ends, by a return or by an exception, the demand list is
    the stable sort by total bandwidth of the list it was, a later pass
    leaves it in that order, and in the scenario this order is not the
    order of insertion. *)
Theorem process_all_demands_sorts_in_place self :
  let after := state (process_all_demands self) in
  demands after = list_sort total_bandwidth (demands self) /\
  demands (state (process_all_demands after)) = demands after /\
  demands scenario_start = [demand_A; demand_B] /\
  demands (state (process_all_demands scenario_start)) = [demand_B; demand_A].
Proof.
  cbv zeta. split_and!.
  - apply process_all_demands_frame.
  - destruct (process_all_demands_frame (state (process_all_demands self)))
      as [_ ->].
    destruct (process_all_demands_frame self) as [_ ->].
    apply list_sort_idem.
  - reflexivity.
  - vm_compute. reflexivity.
Qed.

(** C10. On a square substrate and demands that list a requirement for
    each link, all of them int64 integers, two passes of
    [process_all_demands] in a row both return, and the second appends
    every demand once more: the accepted and rejected lists together hold
    what they held before the first pass and every demand twice, so that
    the ratio returned by the second pass is the number of accepted
    entries over a denominator that has grown by twice the number of
    demands. *)
Theorem process_all_demands_twice self :
  well_formed self -> Forall int64_demand (demands self) ->
  let once := process_all_demands self in
  let twice := process_all_demands (state once) in
  let before :=
    (length (accepted_demands self) + length (rejected_demands self))%nat in
  let n := length (demands self) in
  (length (accepted_demands (state once))
   + length (rejected_demands (state once)) = before + n)%nat /\
  value once
  = Ok (if (before + n =? 0)%nat then 0%Q
        else (Z.of_nat (length (accepted_demands (state once)))
              # Pos.of_nat (before + n))%Q) /\
  accepted_demands (state twice) ++ rejected_demands (state twice)
    ≡ₚ (accepted_demands self ++ rejected_demands self)
        ++ demands self ++ demands self /\
  (length (accepted_demands (state twice))
   + length (rejected_demands (state twice)) = before + 2 * n)%nat /\
  value twice
  = Ok (if (before + 2 * n =? 0)%nat then 0%Q
        else (Z.of_nat (length (accepted_demands (state twice)))
              # Pos.of_nat (before + 2 * n))%Q).
Proof.
  intros Hwf Hint. cbv zeta.
  destruct (process_all_demands_total self Hwf Hint)
    as (s1 & out1 & Hrun1 & _ & [Hwf1 Hint1] & Hdem1 & Hperm1).
  destruct (process_all_demands_total s1 Hwf1 Hint1)
    as (s2 & out2 & Hrun2 & _ & _ & _ & Hperm2).
  unfold value, state. rewrite Hrun1. cbn [fst snd].
  rewrite Hrun2. cbn [fst snd].
  assert (accepted_demands s2 ++ rejected_demands s2
            ≡ₚ (accepted_demands self ++ rejected_demands self)
                ++ demands self ++ demands self) as Hperm.
  { rewrite Hperm2, Hperm1, Hdem1.
    rewrite (list_sort_perm total_bandwidth (demands self)).
    by rewrite <- !app_assoc. }
  assert (length (accepted_demands s1) + length (rejected_demands s1)
          = length (accepted_demands self) + length (rejected_demands self)
            + length (demands self))%nat as Hlen1.
  { rewrite <- !length_app, Hperm1, !length_app. lia. }
  assert (length (accepted_demands s2) + length (rejected_demands s2)
          = length (accepted_demands self) + length (rejected_demands self)
            + 2 * length (demands self))%nat as Hlen2.
  { rewrite <- !length_app, Hperm, !length_app. lia. }
  split_and!; [done| |done|done|].
  - unfold get_acceptance_ratio, total_demands. by rewrite Hlen1.
  - unfold get_acceptance_ratio, total_demands. by rewrite Hlen2.
Qed.

Lemma process_all_demands_twice_witness :
  let once := process_all_demands scenario_start in
  let twice := process_all_demands (state once) in
  let before :=
    (length (accepted_demands scenario_start)
     + length (rejected_demands scenario_start))%nat in
  let n := length (demands scenario_start) in
  (length (accepted_demands (state once))
   + length (rejected_demands (state once)) = before + n)%nat /\
  value once
  = Ok (if (before + n =? 0)%nat then 0%Q
        else (Z.of_nat (length (accepted_demands (state once)))
              # Pos.of_nat (before + n))%Q) /\
  accepted_demands (state twice) ++ rejected_demands (state twice)
    ≡ₚ (accepted_demands scenario_start ++ rejected_demands scenario_start)
        ++ demands scenario_start ++ demands scenario_start /\
  (length (accepted_demands (state twice))
   + length (rejected_demands (state twice)) = before + 2 * n)%nat /\
  value twice
  = Ok (if (before + 2 * n =? 0)%nat then 0%Q
        else (Z.of_nat (length (accepted_demands (state twice)))
              # Pos.of_nat (before + 2 * n))%Q).
Proof.
  apply (process_all_demands_twice scenario_start).
  - exists substrate_example. split; [reflexivity|]. split.
    + repeat constructor.
    + repeat constructor; unfold demand_ok; simpl; lia.
  - repeat constructor; unfold int64, int64_min, int64_max; lia.
Defined.

(** * Further properties of the code *)

(** ** Sums *)

Lemma sum_from l x : fold_left Z.add l x = x + sum l.
Proof.
  unfold sum. revert x. induction l as [|y l IH]; intros x; simpl; [lia|].
  rewrite (IH (x + y)), (IH (0 + y)). lia.
Qed.

Lemma sum_cons x l : sum (x :: l) = x + sum l.
Proof. unfold sum at 1. simpl. apply sum_from. Qed.

Lemma sum_app l k : sum (l ++ k) = sum l + sum k.
Proof.
  induction l as [|x l IH]; simpl; [done|]. rewrite !sum_cons, IH. lia.
Qed.

Lemma sum_insert l i x y :
  l !! i = Some x -> sum (<[i := y]> l) = sum l - x + y.
Proof.
  revert i. induction l as [|z l IH]; intros [|i] Hi; simplify_eq/=.
  - rewrite !sum_cons. lia.
  - rewrite !sum_cons, (IH i Hi). lia.
Qed.

Lemma sum_foldr l : sum l = foldr Z.add 0 l.
Proof. unfold sum. rewrite fold_left_add_foldr. lia. Qed.

Lemma entries_sum_sum a : entries_sum a = sum (map sum a).
Proof.
  unfold entries_sum. rewrite sum_foldr. f_equal.
  apply map_ext. intros row. by rewrite sum_foldr.
Qed.

Lemma np_set_entries a u v w x a' :
  1 <= u -> 1 <= v -> capacity a u v = Some x ->
  np_set a (u - 1) (v - 1) w = inr a' ->
  entries_sum a' = entries_sum a - x + w.
Proof.
  intros Hu Hv Hx. unfold np_set.
  rewrite norm_index_nonneg by lia.
  unfold capacity, entry in Hx.
  destruct (a !! Z.to_nat (u - 1)) as [row|] eqn:Hrow; [|done].
  rewrite decide_True by (by eapply lookup_lt_Some). simpl.
  unfold getitem at 1. rewrite Hrow. simpl.
  rewrite norm_index_nonneg by lia.
  rewrite decide_True by (by eapply lookup_lt_Some). simpl.
  intros [= <-]. rewrite !entries_sum_sum.
  change (map sum ?l) with (sum <$> l).
  rewrite list_fmap_insert.
  rewrite (sum_insert _ (Z.to_nat (u - 1)) (sum row))
    by (by rewrite list_lookup_fmap, Hrow).
  rewrite (sum_insert row (Z.to_nat (v - 1)) x) by done. lia.
Qed.

(** Committing one link takes from the sum of the array what it takes from
    the arc. *)
Lemma committed_link_entries net d m i u v req x :
  m !! i = Some u -> m !! S i = Some v -> bandwidth d !! i = Some req ->
  1 <= u -> 1 <= v -> capacity net u v = Some x -> int64 req ->
  entries_sum (committed_link d m net i) = entries_sum net - x + sub64 x req.
Proof.
  intros Hmu Hmv Hreq Hu Hv Hx Hint.
  destruct (committed_link_int64 net d m i u v req x) as (Hsub & _); [done..|].
  unfold np_isub in Hsub. rewrite np_get_capacity, Hx in Hsub by done.
  simpl in Hsub. destruct (int64b_spec req); [|done].
  by apply (np_set_entries net u v _ x).
Qed.

Lemma sum_take_lookup (l : list Z) n :
  (n <= length l)%nat ->
  foldr Z.add 0 (map (fun i => default 0 (l !! i)) (seq 0 n)) = sum (take n l).
Proof.
  revert l. induction n as [|n IH]; intros l Hn; [done|].
  destruct l as [|x l]; [simpl in Hn; lia|].
  simpl in Hn. rewrite <-cons_seq, <-fmap_S_seq. simpl.
  rewrite sum_cons, <-(IH l) by lia. f_equal.
  change (map ?f (S <$> ?k)) with (map f (map S k)). by rewrite map_map.
Qed.

Lemma links_total_lookup net d m :
  (forall i, i ∈ links d -> link_fits net d m i) ->
  foldr Z.add 0 (map (fun i => default 0 (bandwidth d !! i)) (links d))
  = links_total d.
Proof.
  intros Hfits. unfold links_total, links. apply sum_take_lookup.
  destruct (length (demand_path d) - 1)%nat as [|n] eqn:Hn; [lia|].
  destruct (Hfits n) as (u & v & req & cap & _ & _ & Hreq & _).
  { apply elem_of_links. lia. }
  apply lookup_lt_Some in Hreq. lia.
Qed.

(** With requirements that are not negative, committing links that find
    their bandwidth under an injective mapping takes from the sum of the
    array the requirements of the links. *)
Lemma committed_entries d m past net :
  NoDup m -> NoDup past ->
  Forall (fun b => 0 <= b) (bandwidth d) ->
  (forall i, i ∈ past -> placed net d m i /\ link_fits net d m i) ->
  Forall (fun i => exists req, bandwidth d !! i = Some req /\ int64 req) past ->
  entries_sum (committed d m net past)
  = entries_sum net
    - foldr Z.add 0 (map (fun i => default 0 (bandwidth d !! i)) past).
Proof.
  intros Hm. unfold committed. revert net.
  induction past as [|i past IH]; intros net Hnd Hbw Hp Hfit; simpl; [lia|].
  apply NoDup_cons in Hnd as [Hi Hnd]. apply Forall_cons in Hfit as [Hreq Hfit].
  destruct (Hp i) as [(u & v & req & x & Hu & Hv & Hr & Hu1 & Hv1 & Hx)
                        (u' & v' & req' & x' & Hu' & Hv' & Hr' & Hx' & Hle)];
    [by left|].
  assert (u' = u) as -> by congruence. assert (v' = v) as -> by congruence.
  assert (req' = req) as -> by congruence. assert (x' = x) as -> by congruence.
  destruct Hreq as (req' & Hr'' & Hint). assert (req' = req) as -> by congruence.
  assert (0 <= req) as Hreq0.
  { rewrite Forall_forall in Hbw. apply Hbw. by eapply list_elem_of_lookup_2. }
  destruct (committed_link_int64 net d m i u v req x)
    as (_ & Hshape & Hcap1); [done..|].
  rewrite IH; [|done|done| |done].
  - rewrite (committed_link_entries net d m i u v req x) by done.
    rewrite sub64_exact by lia. rewrite Hr. simpl. lia.
  - intros j Hj.
    destruct (Hp j) as [Hpj (uj & vj & reqj & xj & Huj & Hvj & Hrj & Hxj & Hlej)];
      [by right|].
    split; [by apply (placed_shape net)|].
    destruct Hpj as (uj' & vj' & _ & _ & Huj' & Hvj' & _ & Huj1 & Hvj1 & _).
    assert (uj' = uj) as -> by congruence. assert (vj' = vj) as -> by congruence.
    exists uj, vj, reqj, xj. split_and!; [done..| |done].
    rewrite Hcap1 by done. rewrite decide_False; [done|].
    intros [-> _]. assert (i = j) by (by apply (NoDup_lookup m i j u)).
    by subst.
Qed.

Lemma for_each_output {A} (Q : list event -> Prop) (body : A -> M unit) l self :
  Q [] -> (forall o o', Q o -> Q o' -> Q (o ++ o')) ->
  (forall x s, x ∈ l -> Q (output (body x s))) ->
  Q (output (for_each l body self)).
Proof.
  intros Hnil Happ. revert self.
  induction l as [|x l IH]; intros self Hbody; [done|].
  simpl. unfold bindM.
  pose proof (Hbody x self (list_elem_of_here _ _)) as Hx.
  destruct (body x self) as [[[e|[]] s] out]; [done|].
  specialize (IH s (fun y s' Hy => Hbody y s' (list_elem_of_further _ _ _ Hy))).
  destruct (for_each l body s) as [[r s'] out']. by apply Happ.
Qed.

Lemma process_all_demands_output self :
  output (process_all_demands self)
  = let sorted := with_demands (list_sort total_bandwidth (demands self)) self in
    output (for_each (demands sorted) process_demand sorted).
Proof.
  rewrite process_all_demands_eq. cbv zeta.
  by destruct (for_each _ process_demand _) as [[[e|[]] self'] out].
Qed.

Lemma omap_options {B} (f : event -> option B) (g : nat -> mapping -> event) l :
  (forall i a, f (g i a) = None) -> omap f (imap g l) = [].
Proof.
  revert g. induction l as [|a l IH]; intros g Hg; simpl; [done|].
  rewrite Hg. apply IH. intros; apply Hg.
Qed.

Lemma process_demand_conflicts d self :
  conflicts (output (process_demand d self)) = [].
Proof.
  destruct (process_demand_outcome d self)
    as [[e ->]|[[_ ->]|(net & m & rest & past & tail & _ & _ & _ & _ & _ & _
                        & [[_ ->]|[_ ->]])]];
    [done..| |].
  - unfold output, conflicts. simpl. rewrite omap_app. simpl.
    rewrite (omap_options _ (fun i a => Opcion (S (S i)) a)); done.
  - unfold output, conflicts. simpl.
    rewrite (omap_options _ (fun i a => Opcion (S (S i)) a)); done.
Qed.

(** X1. The defensive test of [allocate_demand] never turns a demand away in a
    pass of [process_all_demands]: the line of a rejection for want of
    resources is never written, whatever the processor; a demand is
    rejected only when the enumerator has found no mapping for it. *)
Theorem commit_is_never_refused self :
  conflicts (output (process_all_demands self)) = [] /\
  forall d,
    conflicts (output (process_demand d self)) = [] /\
    (rejected_demands (state (process_demand d self)) <> rejected_demands self ->
     find_all_possible_allocations self d = Ok []).
Proof.
  split.
  - rewrite process_all_demands_output. cbv zeta.
    apply (for_each_output (fun o => conflicts o = [])); [done| |].
    + intros o o' Ho Ho'. unfold conflicts in *. by rewrite omap_app, Ho, Ho'.
    + intros; apply process_demand_conflicts.
  - intros d. split; [apply process_demand_conflicts|].
    destruct (process_demand_outcome d self)
      as [[e ->]|[[Hfind ->]|(net & m & rest & past & tail & _ & _ & _ & _ & _
                              & _ & [[_ ->]|[_ ->]])]];
      done.
Qed.

(** X2. The allocations and the accepted list go together: when the
    identifiers under which a mapping is recorded are those of the accepted
    demands before a pass, they are after it, whether the pass returns or
    raises. *)
Theorem allocations_follow_accepted self :
  allocations_match self ->
  allocations_match (state (process_all_demands self)) /\
  forall d, allocations_match (state (process_demand d self)).
Proof.
  assert (forall d s, allocations_match s ->
                      allocations_match (state (process_demand d s))) as Hstep.
  { intros d s Hs.
    destruct (process_demand_outcome d s)
      as [[e ->]|[[_ ->]|(net & m & rest & past & tail & _ & _ & _ & _ & _ & _
                          & [[_ ->]|[_ ->]])]];
      [done..| |done].
    unfold allocations_match, state in *. simpl.
    rewrite dom_insert_L, Hs, map_app, list_to_set_app_L. simpl. set_solver. }
  intros Hself. split; [|by intros; apply Hstep].
  rewrite process_all_demands_state. cbv zeta.
  apply for_each_state_inv; [|done]. intros d s _. apply Hstep.
Qed.

Lemma allocations_follow_accepted_witness :
  allocations_match (state (process_all_demands scenario_start)).
Proof.
  apply (allocations_follow_accepted scenario_start).
  unfold allocations_match. vm_compute. reflexivity.
Defined.

Lemma process_all_demands_keeps_labels self net :
  substrate_network self = Some net ->
  allocations_on (length net) self ->
  exists net',
    substrate_network (state (process_all_demands self)) = Some net' /\
    map length net' = map length net /\
    allocations_on (length net) (state (process_all_demands self)).
Proof.
  intros Hnet Hon. rewrite process_all_demands_state. cbv zeta.
  apply (for_each_state_inv
           (fun s => exists net', substrate_network s = Some net' /\
                                  map length net' = map length net /\
                                  allocations_on (length net) s));
    [|by exists net].
  intros d s _ (net1 & Hnet1 & Hshape1 & Hon1).
  assert (length net1 = length net) as Hlen1.
  { by rewrite <-(length_map length net1), Hshape1, length_map. }
  destruct (process_demand_outcome d s)
    as [[e ->]|[[_ ->]|(net2 & m & rest & past & tail & Hnet2 & _
                        & (_ & Hnd & Hm) & Hlinks & Hsplit & _ & Hrun)]];
    [by exists net1..|].
  assert (net2 = net1) as -> by congruence.
  assert (map length (committed d m net1 past) = map length net1) as Hshape.
  { apply committed_shape, (past_links _ _ _ _ Hsplit). intros; by apply Hlinks. }
  exists (committed d m net1 past).
  destruct Hrun as [[_ ->]|[_ ->]]; unfold state; simpl;
    (split_and!; [done|congruence|]); [|done].
  apply map_Forall_insert_2; [|done]. split; [done|]. by rewrite <-Hlen1.
Qed.

(** X3. Every mapping that a pass records is a sequence of different labels of
    the substrate: when the recorded mappings are such sequences over
    [1..N] before the pass, they are after it. *)
Theorem allocations_stay_on_substrate self net :
  substrate_network self = Some net ->
  allocations_on (length net) self ->
  allocations_on (length net) (state (process_all_demands self)) /\
  exists net', substrate_network (state (process_all_demands self)) = Some net' /\
               map length net' = map length net.
Proof.
  intros Hnet Hon.
  destruct (process_all_demands_keeps_labels self net Hnet Hon)
    as (net' & Hnet' & Hshape & Hon').
  split; [done|]. by exists net'.
Qed.

Lemma allocations_stay_on_substrate_witness :
  allocations_on 5 (state (process_all_demands scenario_start)).
Proof.
  apply (allocations_stay_on_substrate scenario_start substrate_example).
  - reflexivity.
  - apply map_Forall_empty.
Defined.

(** ** Capacity is consumed, never returned *)

Lemma below_refl net : below net net.
Proof. split; [done|]. intros u v r _ _ Hr. exists r. split; [done|lia]. Qed.

Lemma below_trans a b c : below a b -> below b c -> below a c.
Proof.
  intros [Hs1 H1] [Hs2 H2]. split; [congruence|].
  intros u v r Hu Hv Hr.
  destruct (H1 u v r Hu Hv Hr) as (r1 & Hr1 & ?).
  destruct (H2 u v r1 Hu Hv Hr1) as (r2 & Hr2 & ?).
  exists r2. split; [done|lia].
Qed.

(** X4. When no demand asks for a negative bandwidth, a pass never raises the
    residual capacity of an arc, and keeps the shape of the array, whatever
    the capacities are and whether the pass returns or raises. *)
Theorem residual_never_grows self net :
  substrate_network self = Some net ->
  Forall (fun d => Forall (fun b => 0 <= b) (bandwidth d)) (demands self) ->
  exists net',
    substrate_network (state (process_all_demands self)) = Some net' /\
    below net' net.
Proof.
  intros Hnet Hds. rewrite process_all_demands_state. cbv zeta.
  apply (for_each_state_inv
           (fun s => exists net', substrate_network s = Some net' /\ below net' net));
    [|exists net; split; [done|apply below_refl]].
  intros d s Hd (net1 & Hnet1 & Hbelow).
  assert (Forall (fun b => 0 <= b) (bandwidth d)) as Hbw.
  { rewrite Forall_forall in Hds. apply Hds. simpl in Hd.
    by rewrite (list_sort_perm total_bandwidth (demands self)) in Hd. }
  destruct (process_demand_outcome d s)
    as [[e ->]|[[_ ->]|(net2 & m & rest & past & tail & Hnet2 & _
                        & (_ & Hnd & _) & Hlinks & Hsplit & Hpast & Hrun)]];
    [by exists net1..|].
  assert (net2 = net1) as -> by congruence.
  exists (committed d m net1 past). split.
  { by destruct Hrun as [[_ ->]|[_ ->]]. }
  apply (below_trans _ net1); [|done]. split.
  - apply committed_shape, (past_links _ _ _ _ Hsplit). intros; by apply Hlinks.
  - intros u v r Hu Hv Hr.
    destruct (committed_between d m past net1 u v r)
      as (x & Hx & Hle & _); [done|by eapply past_NoDup|done| |done..|].
    + by apply (past_links _ _ _ _ Hsplit).
    + by exists x.
Qed.

Lemma residual_never_grows_witness :
  exists net',
    substrate_network (state (process_all_demands scenario_start)) = Some net' /\
    below net' substrate_example.
Proof.
  apply (residual_never_grows scenario_start substrate_example).
  - reflexivity.
  - repeat constructor; lia.
Defined.

(** ** Sums of capacities *)

Lemma sum_between (l k : list Z) :
  Forall2 (fun r o => 0 <= r <= o) l k -> 0 <= sum l <= sum k.
Proof.
  induction 1 as [|r o l k Hro Hlk IH]; [done|]. rewrite !sum_cons. lia.
Qed.

Lemma within_rows net orig :
  map length net = map length orig -> within net orig ->
  Forall2 (Forall2 (fun r o => 0 <= r <= o)) net orig.
Proof.
  intros Hshape Hin.
  assert (length net = length orig) as Hlen.
  { by rewrite <-(length_map length net), Hshape, length_map. }
  apply Forall2_same_length_lookup_2; [done|].
  intros i row row' Hrow Hrow'.
  assert (length row = length row') as Hlen'.
  { assert (map length net !! i = Some (length row)) as H1.
    { change (map length net) with (length <$> net).
      by rewrite list_lookup_fmap, Hrow. }
    rewrite Hshape in H1. change (map length orig) with (length <$> orig) in H1.
    rewrite list_lookup_fmap, Hrow' in H1. by injection H1. }
  apply Forall2_same_length_lookup_2; [done|].
  intros j r o Hr Ho.
  destruct (Hin (Z.of_nat i + 1) (Z.of_nat j + 1) r) as (o' & Ho' & Hle);
    [lia|lia| |].
  - unfold capacity, entry.
    replace (Z.to_nat (Z.of_nat i + 1 - 1)) with i by lia.
    replace (Z.to_nat (Z.of_nat j + 1 - 1)) with j by lia.
    by rewrite Hrow.
  - unfold capacity, entry in Ho'.
    replace (Z.to_nat (Z.of_nat i + 1 - 1)) with i in Ho' by lia.
    replace (Z.to_nat (Z.of_nat j + 1 - 1)) with j in Ho' by lia.
    rewrite Hrow' in Ho'. by simplify_eq.
Qed.

Lemma rows_between (net orig : matrix) :
  Forall2 (Forall2 (fun r o => 0 <= r <= o)) net orig ->
  Forall2 (fun r o => 0 <= r <= o) (map sum net) (map sum orig).
Proof.
  induction 1 as [|row row' net orig Hrow _ IH]; simpl; constructor; [|done].
  by apply sum_between.
Qed.

Lemma within_entries net orig :
  map length net = map length orig -> within net orig ->
  0 <= entries_sum net <= entries_sum orig.
Proof.
  intros Hshape Hin. rewrite !entries_sum_sum.
  by apply sum_between, rows_between, within_rows.
Qed.

(** [np.sum] is the sum of the entries when that sum is an int64 integer. *)
Lemma np_sum_exact a : int64 (entries_sum a) -> np_sum a = entries_sum a.
Proof. intros Ha. unfold np_sum. rewrite <-entries_sum_sum. by apply wrap64_id. Qed.

Lemma within_np_sum net orig :
  map length net = map length orig -> within net orig ->
  entries_sum orig <= int64_max ->
  np_sum net = entries_sum net /\ np_sum orig = entries_sum orig /\
  0 <= entries_sum net <= entries_sum orig.
Proof.
  intros Hshape Hin Hmax.
  pose proof (within_entries net orig Hshape Hin) as Hsums.
  split_and!; [| |lia..];
    apply np_sum_exact; unfold int64, int64_min, int64_max in *; lia.
Qed.

Lemma within_int64 net orig u v x :
  within net orig -> int64_array orig -> 1 <= u -> 1 <= v ->
  capacity net u v = Some x -> 0 <= x <= int64_max.
Proof.
  intros Hin Horig Hu Hv Hx.
  destruct (Hin u v x Hu Hv Hx) as (o & Ho & Hle).
  pose proof (int64_array_cells orig u v o Horig Ho) as Ho64.
  unfold int64 in Ho64. lia.
Qed.

(** ** The bandwidth in use *)

Lemma accepted_volume_append d self al sub :
  accepted_volume
    (with_accepted (accepted_demands self ++ [d])
       (with_allocations al (with_substrate sub self)))
  = accepted_volume self + links_total d.
Proof.
  unfold accepted_volume. simpl. rewrite map_app, sum_app. simpl.
  f_equal.
Qed.

(** Between 0 and a baseline of int64 capacities, a pass whose demands ask
    for no negative bandwidth stays between 0 and the baseline, and what
    leaves the array is the bandwidth of the demands it accepts. *)
Lemma process_all_demands_conserves self net orig :
  substrate_network self = Some net -> original_substrate self = Array orig ->
  map length net = map length orig -> within net orig -> int64_array orig ->
  Forall (fun d => Forall (fun b => 0 <= b) (bandwidth d)) (demands self) ->
  exists net',
    substrate_network (state (process_all_demands self)) = Some net' /\
    map length net' = map length orig /\ within net' orig /\
    entries_sum net' + accepted_volume (state (process_all_demands self))
    = entries_sum net + accepted_volume self.
Proof.
  intros Hnet Horig Hshape Hin H64 Hds.
  rewrite process_all_demands_state. cbv zeta.
  cut (let s := state (for_each
                      (list_sort total_bandwidth (demands self)) process_demand
                      (with_demands (list_sort total_bandwidth (demands self))
                                    self)) in
       exists net',
         substrate_network s = Some net' /\
         map length net' = map length orig /\ within net' orig /\
         original_substrate s = Array orig /\
         entries_sum net' + accepted_volume s
         = entries_sum net + accepted_volume self).
  { cbv zeta. intros (net' & ? & ? & ? & _ & ?). by exists net'. }
  cbv zeta.
  apply (for_each_state_inv
           (fun s => exists net',
                       substrate_network s = Some net' /\
                       map length net' = map length orig /\ within net' orig /\
                       original_substrate s = Array orig /\
                       entries_sum net' + accepted_volume s
                       = entries_sum net + accepted_volume self));
    [|by exists net].
  intros d s Hd (net1 & Hnet1 & Hshape1 & Hin1 & Horig1 & Hsum1).
  assert (Forall (fun b => 0 <= b) (bandwidth d)) as Hbw.
  { rewrite Forall_forall in Hds. apply Hds. simpl in Hd.
    by rewrite (list_sort_perm total_bandwidth (demands self)) in Hd. }
  destruct (process_demand_outcome d s)
    as [[e ->]|[[_ ->]|(net2 & m & rest & past & tail & Hnet2 & _
                        & (_ & Hnd & _) & Hlinks & Hsplit & Hpast & Hrun)]];
    [by exists net1..|].
  assert (net2 = net1) as -> by congruence.
  destruct Hrun as [[-> ->]|[(i & tail' & req & -> & Hreq & Hno) _]].
  - rewrite app_nil_r in Hsplit. subst past.
    exists (committed d m net1 (links d)). unfold state. cbn [fst snd].
    split_and!; [done| | |done|].
    + rewrite committed_shape; [done|]. intros; by apply Hlinks.
    + intros u v r Hu Hv Hr.
      destruct (committed_between d m (links d) net1 u v r)
        as (x & Hx & Hle & Hpos); [done|apply NoDup_seq|done..|].
      destruct (Hin1 u v x Hu Hv Hx) as (o & Ho & Hxo).
      exists o. split; [done|]. lia.
    + rewrite accepted_volume_append.
      rewrite (committed_entries d m (links d) net1);
        [|done|apply NoDup_seq|done..].
      rewrite (links_total_lookup net1 d m) by (intros; by apply Hlinks). lia.
  - destruct Hno.
    destruct (Hlinks i) as [(u & v & _ & _ & Hu & Hv & _ & Hu1 & Hv1 & _)
                              (u' & v' & req' & x & Hu' & Hv' & Hreq' & Hx & Hle)].
    { rewrite Hsplit. set_solver. }
    assert (u' = u) as -> by congruence. assert (v' = v) as -> by congruence.
    assert (req' = req) as -> by congruence.
    pose proof (within_int64 net1 orig u v x Hin1 H64 Hu1 Hv1 Hx) as Hx64.
    assert (0 <= req) as Hreq0.
    { rewrite Forall_forall in Hbw. apply Hbw. by eapply list_elem_of_lookup_2. }
    unfold int64, int64_min. lia.
Qed.

(** X5. On a processor whose residual capacities lie between 0 and a
    baseline of int64 capacities that add up to an int64 integer, and whose
    demands ask for no negative bandwidth, what a pass takes from the
    substrate is what the demands it accepts ask for: [np.sum] of each
    array is the sum of its entries, and this sum falls by the requirements
    of the links of the newly accepted demands. When moreover the residual
    capacities are the baseline and the accepted list is empty, the
    bandwidth utilization of [metrics.py] is computed from the requirements
    of the accepted demands over the sum of the baseline. *)
Theorem used_bandwidth_is_accepted_volume self net orig :
  substrate_network self = Some net -> original_substrate self = Array orig ->
  map length net = map length orig -> within net orig ->
  int64_array orig -> entries_sum orig <= int64_max ->
  Forall (fun d => Forall (fun b => 0 <= b) (bandwidth d)) (demands self) ->
  let after := state (process_all_demands self) in
  exists net',
    substrate_network after = Some net' /\
    np_sum net = entries_sum net /\ np_sum net' = entries_sum net' /\
    entries_sum net - entries_sum net'
    = accepted_volume after - accepted_volume self /\
    (net = orig -> accepted_demands self = [] ->
     calculate_bandwidth_utilization (Some after)
     = Ok (if entries_sum orig =? 0 then ZeroPercent
           else Percent (accepted_volume after) (entries_sum orig))).
Proof.
  intros Hnet Horig Hshape Hin H64 Hmax Hds. cbv zeta.
  destruct (process_all_demands_conserves self net orig Hnet Horig Hshape Hin
              H64 Hds) as (net' & Hnet' & Hshape' & Hin' & Hsum).
  destruct (within_np_sum net orig Hshape Hin Hmax) as (Hs & Hso & Hrange).
  destruct (within_np_sum net' orig Hshape' Hin' Hmax) as (Hs' & _ & Hrange').
  exists net'. split_and!; [done|done|done|lia|].
  intros -> Hacc. unfold calculate_bandwidth_utilization.
  destruct (process_all_demands_frame self) as [-> _].
  rewrite Horig, Hnet', Hso, Hs'.
  assert (accepted_volume self = 0) as Hzero.
  { unfold accepted_volume. by rewrite Hacc. }
  rewrite wrap64_id by (unfold int64, int64_min, int64_max in *; lia).
  replace (entries_sum orig - entries_sum net')
    with (accepted_volume (state (process_all_demands self))) by lia.
  by destruct (entries_sum orig =? 0).
Qed.

Lemma used_bandwidth_is_accepted_volume_witness :
  let after := state (process_all_demands scenario_start) in
  exists net',
    substrate_network after = Some net' /\
    np_sum substrate_example = entries_sum substrate_example /\
    np_sum net' = entries_sum net' /\
    entries_sum substrate_example - entries_sum net'
    = accepted_volume after - accepted_volume scenario_start /\
    (substrate_example = substrate_example ->
     accepted_demands scenario_start = [] ->
     calculate_bandwidth_utilization (Some after)
     = Ok (if entries_sum substrate_example =? 0 then ZeroPercent
           else Percent (accepted_volume after) (entries_sum substrate_example))).
Proof.
  apply (used_bandwidth_is_accepted_volume scenario_start substrate_example
           substrate_example).
  - reflexivity.
  - reflexivity.
  - reflexivity.
  - apply within_baseline. repeat constructor; lia.
  - repeat constructor; unfold int64_min, int64_max; lia.
  - vm_compute. discriminate.
  - repeat constructor; lia.
Defined.

(** ** The nodes in use *)

Lemma length_range lo hi : length (range lo hi) = Z.to_nat (hi - lo).
Proof. unfold range. by rewrite length_map, length_seq. Qed.






(** ** The bandwidth utilization *)

(** X7. While the residual capacities lie between 0 and a baseline whose
    sum is an int64 integer, the bandwidth utilization of [metrics.py]
    returns normally: [0.0] when the baseline adds up to 0, otherwise the
    quotient by the sum of the baseline, which is positive, of the sum of
    the baseline less the sum of the residual capacities, which lies
    between 0 and the sum of the baseline. *)
Theorem bandwidth_utilization_within_baseline p net orig :
  substrate_network p = Some net -> original_substrate p = Array orig ->
  map length net = map length orig -> within net orig ->
  entries_sum orig <= int64_max ->
  exists r,
    calculate_bandwidth_utilization (Some p) = Ok r /\
    match r with
    | ZeroPercent => entries_sum orig = 0
    | Percent used total =>
        total = entries_sum orig /\
        used = entries_sum orig - entries_sum net /\
        0 <= used <= total /\ 0 < total
    end.
Proof.
  intros Hnet Horig Hshape Hin Hmax.
  destruct (within_np_sum net orig Hshape Hin Hmax) as (Hs & Hso & Hrange).
  unfold calculate_bandwidth_utilization. rewrite Horig, Hnet, Hso, Hs.
  rewrite wrap64_id by (unfold int64, int64_min, int64_max in *; lia).
  destruct (Z.eqb_spec (entries_sum orig) 0) as [Hz|Hnz].
  - by exists ZeroPercent.
  - eexists. split; [done|]. simpl. lia.
Qed.

Lemma bandwidth_utilization_within_baseline_witness :
  exists r,
    calculate_bandwidth_utilization (Some scenario_start) = Ok r /\
    match r with
    | ZeroPercent => entries_sum substrate_example = 0
    | Percent used total =>
        total = entries_sum substrate_example /\
        used = entries_sum substrate_example - entries_sum substrate_example /\
        0 <= used <= total /\ 0 < total
    end.
Proof.
  apply (bandwidth_utilization_within_baseline scenario_start substrate_example
           substrate_example).
  - reflexivity.
  - reflexivity.
  - reflexivity.
  - apply within_baseline. repeat constructor; lia.
  - vm_compute. discriminate.
Defined.

(** ** The acceptance ratio *)

Lemma Zpos_of_nat n : n <> 0%nat -> Z.pos (Pos.of_nat n) = Z.of_nat n.
Proof. intros Hn. destruct n as [|n]; [done|]. lia. Qed.

Lemma ratio_cases (a r : nat) :
  let q := if (a + r =? 0)%nat then 0%Q
           else (Z.of_nat a # Pos.of_nat (a + r))%Q in
  (0 <= q)%Q /\ (q <= 1)%Q /\
  ((q == 0)%Q <-> a = 0%nat) /\ ((q == 1)%Q <-> a <> 0%nat /\ r = 0%nat).
Proof.
  cbv zeta. destruct (Nat.eqb_spec (a + r) 0) as [Hz|Hnz].
  - split_and!; [done|done| |].
    + split; [lia|done].
    + split; [intros H; by vm_compute in H|lia].
  - unfold Qle, Qeq. cbn [Qnum Qden]. rewrite Zpos_of_nat by done.
    split_and!; [lia|lia| |]; split; lia.
Qed.

(** X8. The acceptance ratio lies between 0 and 1 for every processor; it is 0
    exactly when no demand is accepted and 1 exactly when some demand is
    accepted and none rejected; [get_results] reports the same ratio. *)
Theorem acceptance_ratio_range self :
  let q := get_acceptance_ratio self in
  (0 <= q)%Q /\ (q <= 1)%Q /\
  ((q == 0)%Q <-> accepted_demands self = []) /\
  ((q == 1)%Q <-> accepted_demands self <> [] /\ rejected_demands self = []) /\
  result_acceptance_ratio (get_results self) = q.
Proof.
  cbv zeta.
  destruct (ratio_cases (length (accepted_demands self))
                        (length (rejected_demands self)))
    as (H0 & H1 & Hzero & Hone).
  unfold get_acceptance_ratio, total_demands.
  split_and!; [done|done| | |done].
  - rewrite Hzero. apply length_zero_iff_nil.
  - rewrite Hone, !length_zero_iff_nil. done.
Qed.

(** ** One pass *)

(** X9. On a processor with a square substrate, demands that list a
    requirement for each link, all of them int64 integers, and nothing
    recorded yet, one pass returns and files every demand: the accepted and
    rejected lists together are a rearrangement of the demand list, the
    ratio returned is the number of accepted demands over the number of
    demands ([0.0] without demand), and a demand list without repetition
    is split in two: a demand is accepted exactly when it is not
    rejected. *)
Theorem one_pass_files_every_demand self :
  well_formed self -> Forall int64_demand (demands self) ->
  accepted_demands self = [] -> rejected_demands self = [] ->
  let after := state (process_all_demands self) in
  let n := length (demands self) in
  value (process_all_demands self)
  = Ok (if (n =? 0)%nat then 0%Q
        else (Z.of_nat (length (accepted_demands after)) # Pos.of_nat n)%Q) /\
  accepted_demands after ++ rejected_demands after ≡ₚ demands self /\
  (length (accepted_demands after) + length (rejected_demands after) = n)%nat /\
  (NoDup (demands self) ->
   forall d, d ∈ demands self ->
     (d ∈ accepted_demands after <-> d ∉ rejected_demands after)).
Proof.
  intros Hwf Hint Hacc Hrej. cbv zeta.
  destruct (process_all_demands_total self Hwf Hint)
    as (s & out & Hrun & _ & _ & _ & Hperm).
  rewrite Hrun. unfold value, state. cbn [fst snd].
  rewrite Hacc, Hrej in Hperm. simpl in Hperm.
  assert (length (accepted_demands s) + length (rejected_demands s)
          = length (demands self))%nat as Hlen.
  { by rewrite <-length_app, Hperm. }
  split_and!; [|done|done|].
  - unfold get_acceptance_ratio, total_demands. by rewrite Hlen.
  - intros Hnd d Hd. rewrite <-Hperm in Hnd, Hd.
    apply NoDup_app in Hnd as (_ & Hdisj & _).
    apply elem_of_app in Hd. split; [by apply Hdisj|]. tauto.
Qed.

Lemma one_pass_files_every_demand_witness :
  let after := state (process_all_demands scenario_start) in
  let n := length (demands scenario_start) in
  value (process_all_demands scenario_start)
  = Ok (if (n =? 0)%nat then 0%Q
        else (Z.of_nat (length (accepted_demands after)) # Pos.of_nat n)%Q) /\
  accepted_demands after ++ rejected_demands after ≡ₚ demands scenario_start /\
  (length (accepted_demands after) + length (rejected_demands after) = n)%nat /\
  (NoDup (demands scenario_start) ->
   forall d, d ∈ demands scenario_start ->
     (d ∈ accepted_demands after <-> d ∉ rejected_demands after)).
Proof.
  apply (one_pass_files_every_demand scenario_start).
  - exists substrate_example. split; [reflexivity|]. split.
    + repeat constructor.
    + repeat constructor; unfold demand_ok; simpl; lia.
  - repeat constructor; unfold int64, int64_min, int64_max; lia.
  - reflexivity.
  - reflexivity.
Defined.

(** ** Demands at the edges *)

Lemma permutations_short_pool (pool : list Z) r :
  NoDup pool -> (length pool < r)%nat -> permutations pool r = [].
Proof.
  intros Hpool Hr. destruct (permutations pool r) as [|m ms] eqn:Hp; [done|].
  assert (In m (permutations pool r)) as Hm by (rewrite Hp; by left).
  apply in_permutations in Hm as (Hlen & Hnd & Hsub); [|done].
  assert (length m <= length pool)%nat; [|lia].
  by apply submseteq_length, NoDup_submseteq.
Qed.

(** X10. A demand with more virtual nodes than the substrate has nodes is
    rejected whatever the capacities and whatever its list of requirements:
    the enumerator returns the empty list without reading any of them, and
    the loop body files the demand as rejected and changes nothing else. *)
Theorem oversized_demand_is_rejected self net d :
  substrate_network self = Some net ->
  (length net < length (demand_path d))%nat ->
  find_all_possible_allocations self d = Ok [] /\
  process_demand d self
  = (Ok tt, with_rejected (rejected_demands self ++ [d]) self,
     [Procesando (demand_id d); Posibles (demand_id d);
      NoHayAsignaciones; RechazadaSinAsignaciones (demand_id d)]).
Proof.
  intros Hnet Hlen.
  assert (find_all_possible_allocations self d = Ok []) as Hfind.
  { unfold find_all_possible_allocations. rewrite Hnet. simpl.
    rewrite permutations_short_pool; [done|apply sorted_NoDup, range_sorted|].
    rewrite length_range. unfold shape0. lia. }
  split; [done|]. by rewrite process_demand_eq, Hfind.
Qed.

Lemma oversized_demand_is_rejected_witness :
  find_all_possible_allocations scenario_start
    (Demand 3 [1; 2; 3; 4; 5; 6] [1; 1; 1; 1; 1]) = Ok [].
Proof.
  apply (oversized_demand_is_rejected scenario_start substrate_example).
  - reflexivity.
  - simpl. lia.
Defined.

Lemma valid_mappings_no_links net d ms :
  links d = [] -> valid_mappings net d ms = Ok ms.
Proof.
  intros Hl. induction ms as [|m ms IH]; simpl; [done|].
  rewrite Hl. simpl. by rewrite IH.
Qed.

Lemma allocate_demand_no_links d m self :
  links d = [] ->
  allocate_demand d m self
  = (Ok true, with_allocations (<[demand_id d := m]> (allocations self)) self, []).
Proof. intros Hl. unfold allocate_demand. rewrite Hl. by run. Qed.

Lemma range_from_1 n : range 1 (Z.of_nat (S n) + 1) = 1 :: range 2 (Z.of_nat (S n) + 1).
Proof.
  unfold range.
  replace (Z.to_nat (Z.of_nat (S n) + 1 - 1)) with (S n) by lia.
  replace (Z.to_nat (Z.of_nat (S n) + 1 - 2)) with n by lia.
  simpl. f_equal. rewrite <-seq_shift, map_map. apply map_ext. intros; lia.
Qed.

(** X11. A demand without link consumes nothing and is accepted when it can be
    placed: a demand with an empty path is accepted with the empty mapping
    on any substrate, and a demand of one virtual node is accepted on the
    substrate node 1 as soon as the substrate has a node. In both cases the
    capacities are left as they were and the list of requirements is not
    read. *)
Theorem linkless_demand_is_accepted self net d :
  substrate_network self = Some net ->
  (length (demand_path d) <= 1)%nat ->
  (length (demand_path d) = 1%nat -> net <> []) ->
  let m := take (length (demand_path d)) [1] in
  exists out,
    process_demand d self
    = (Ok tt,
       with_accepted (accepted_demands self ++ [d])
         (with_allocations (<[demand_id d := m]> (allocations self)) self),
       out).
Proof.
  intros Hnet Hlen Hne. cbv zeta.
  assert (links d = []) as Hlinks.
  { unfold links. by replace (length (demand_path d) - 1)%nat with 0%nat by lia. }
  assert (exists rest, find_all_possible_allocations self d
                       = inr (take (length (demand_path d)) [1] :: rest))
    as [rest Hfind].
  { unfold find_all_possible_allocations. rewrite Hnet. simpl.
    rewrite valid_mappings_no_links by done.
    destruct (length (demand_path d)) as [|[|k]] eqn:Hk; [by eexists| |lia].
    unfold shape0. destruct net as [|row net]; [by destruct Hne|].
    rewrite length_cons, range_from_1. simpl. by eexists. }
  rewrite process_demand_eq, Hfind. cbv zeta.
  rewrite allocate_demand_no_links by done. by eexists.
Qed.

Lemma linkless_demand_is_accepted_witness :
  exists out,
    process_demand (Demand 7 [1] []) scenario_start
    = (Ok tt,
       with_accepted (accepted_demands scenario_start ++ [Demand 7 [1] []])
         (with_allocations (<[7 := [1]]> (allocations scenario_start))
            scenario_start),
       out).
Proof.
  apply (linkless_demand_is_accepted scenario_start substrate_example
           (Demand 7 [1] [])).
  - reflexivity.
  - simpl. lia.
  - discriminate.
Defined.

(** X12. A demand that lists fewer requirements than it has links is never
    accepted: the enumerator, when it returns, returns no mapping, and the
    loop body leaves the accepted list and the allocations as they were. *)
Theorem short_bandwidth_is_never_accepted self d :
  (length (bandwidth d) < length (demand_path d) - 1)%nat ->
  (forall l, find_all_possible_allocations self d = Ok l -> l = []) /\
  accepted_demands (state (process_demand d self)) = accepted_demands self /\
  allocations (state (process_demand d self)) = allocations self.
Proof.
  intros Hshort.
  assert (forall m rest, find_all_possible_allocations self d <> inr (m :: rest))
    as Hnone.
  { intros m rest Hfind.
    apply find_all_possible_allocations_elem in Hfind as (net & _ & _ & Hl).
    destruct (proj1 (Hl m)) as (_ & Hfit); [by left|].
    destruct (links_fit_true _ _ _ _ Hfit (length (bandwidth d)))
      as (s & t & req & x & Hlink & _).
    { apply elem_of_links. lia. }
    apply link_Ok in Hlink as (u & v & _ & _ & Hreq & _).
    apply lookup_lt_Some in Hreq. lia. }
  split.
  - intros [|m rest] Hfind; [done|]. by destruct (Hnone m rest).
  - rewrite process_demand_eq.
    destruct (find_all_possible_allocations self d) as [e|[|m rest]] eqn:Hfind;
      [done..|]. by destruct (Hnone m rest).
Qed.

Lemma short_bandwidth_is_never_accepted_witness :
  accepted_demands (state (process_demand (Demand 8 [1; 2; 3] [4]) scenario_start))
  = accepted_demands scenario_start.
Proof.
  apply (short_bandwidth_is_never_accepted scenario_start (Demand 8 [1; 2; 3] [4])).
  simpl. lia.
Defined.

Lemma all_mappings_nonempty n k :
  (k <= n)%nat ->
  exists m rest,
    permutations (range 1 (Z.of_nat n + 1)) k = m :: rest /\ length m = k.
Proof.
  intros Hk.
  assert (In (take k (range 1 (Z.of_nat n + 1)))
             (permutations (range 1 (Z.of_nat n + 1)) k)) as Hin.
  { apply in_all_mappings. split_and!.
    - rewrite length_take, length_range. lia.
    - eapply sublist_NoDup; [|apply sublist_take].
      apply sorted_NoDup, range_sorted.
    - apply Forall_forall. intros x (i & Hx & _)%elem_of_take.
      apply list_elem_of_lookup_2, elem_of_range in Hx. lia. }
  destruct (permutations (range 1 (Z.of_nat n + 1)) k) as [|m rest] eqn:Hp;
    [done|].
  exists m, rest. split; [done|].
  assert (In m (permutations (range 1 (Z.of_nat n + 1)) k)) as Hm
    by (rewrite Hp; by left).
  by apply in_all_mappings in Hm as (? & _).
Qed.

(** X13. A demand of two virtual nodes or more that lists no requirement at all,
    on a substrate with room for it, makes the enumerator raise
    [IndexError] at the first candidate: the loop body stops after the
    announcement of the demand and the processor is left as it was. *)
Theorem missing_requirements_raise self net d :
  substrate_network self = Some net ->
  bandwidth d = [] ->
  (2 <= length (demand_path d) <= length net)%nat ->
  find_all_possible_allocations self d = Raise IndexError /\
  process_demand d self = (Raise IndexError, self, [Procesando (demand_id d)]).
Proof.
  intros Hnet Hbw Hlen.
  assert (find_all_possible_allocations self d = Raise IndexError) as Hfind.
  { unfold find_all_possible_allocations. rewrite Hnet. simpl.
    destruct (all_mappings_nonempty (shape0 net) (length (demand_path d)))
      as (m & rest & -> & Hm); [unfold shape0; lia|].
    simpl. unfold links.
    destruct (length (demand_path d) - 1)%nat as [|k] eqn:Hk; [lia|].
    simpl. unfold link.
    destruct m as [|u [|v m]]; [simpl in Hm; lia..|].
    simpl. by rewrite Hbw. }
  split; [done|]. by rewrite process_demand_eq, Hfind.
Qed.

Lemma missing_requirements_raise_witness :
  find_all_possible_allocations scenario_start (Demand 9 [1; 2; 3] [])
  = Raise IndexError.
Proof.
  apply (missing_requirements_raise scenario_start substrate_example
           (Demand 9 [1; 2; 3] [])).
  - reflexivity.
  - reflexivity.
  - simpl. lia.
Defined.

(** ** A processor without substrate *)

(** X14. On a processor on which [set_substrate_network] was never called,
    [reset] empties the four collections and then raises [AttributeError];
    a pass over an empty demand list returns the ratio and changes nothing,
    and a pass over a demand list that is not empty sorts it, announces the
    first demand and raises [AttributeError] without filing any demand;
    the two utilizations of [metrics.py] raise [AttributeError]. *)
Theorem without_substrate self :
  substrate_network self = None ->
  original_substrate self = Missing ->
  reset self = (Raise AttributeError, Processor None Missing [] [] [] ∅, []) /\
  (demands self = [] ->
   process_all_demands self = (Ok (get_acceptance_ratio self), self, [])) /\
  (forall d ds, list_sort total_bandwidth (demands self) = d :: ds ->
     process_all_demands self
     = (Raise AttributeError, with_demands (d :: ds) self,
        [Procesando (demand_id d)])) /\
  calculate_bandwidth_utilization (Some self) = Raise AttributeError /\
  calculate_node_utilization (Some self) = Raise AttributeError.
Proof.
  intros Hnet Horig. split_and!.
  - by rewrite reset_run, Horig, Hnet.
  - intros Hds. rewrite process_all_demands_eq, Hds. simpl.
    f_equal. f_equal. destruct self; simplify_eq/=. done.
  - intros d ds Hsort. rewrite process_all_demands_eq, Hsort. cbv zeta.
    simpl. unfold bindM. rewrite process_demand_eq.
    unfold find_all_possible_allocations. simpl. by rewrite Hnet.
  - unfold calculate_bandwidth_utilization. by rewrite Horig.
  - unfold calculate_node_utilization. by rewrite Hnet.
Qed.

Lemma without_substrate_witness :
  process_all_demands (state (add_demand 1 [1; 2] [3] init))
  = (Raise AttributeError, state (add_demand 1 [1; 2] [3] init),
     [Procesando 1]).
Proof.
  pose proof (without_substrate (state (add_demand 1 [1; 2] [3] init))
                eq_refl eq_refl) as (_ & _ & H & _).
  exact (H (Demand 1 [1; 2] [3]) [] eq_refl).
Defined.

(** ** The report *)

Lemma report_accepted_spec al ds :
  match report_accepted al ds with
  | (lines, Returned) =>
      Forall2 (fun d line => exists m, al !! demand_id d = Some m /\
                                       line = Asignada (demand_id d) m)
              ds lines
  | (lines, KeyError key) =>
      exists d, d ∈ ds /\ demand_id d = key /\ al !! key = None
  end.
Proof.
  induction ds as [|d ds IH]; simpl; [constructor|].
  destruct (al !! demand_id d) as [m|] eqn:Hm.
  - destruct (report_accepted al ds) as [lines [|key]].
    + constructor; [by exists m|done].
    + destruct IH as (d' & ? & ? & ?). exists d'. split_and!; [by right|done..].
  - exists d. split_and!; [by left|done..].
Qed.

(** X15. [print_allocation_results] finds the allocation of every accepted
    demand whenever the allocations are recorded under the identifiers of
    the accepted demands: it returns normally, having written one line with
    the recorded mapping for each accepted demand, in order, and one line
    for each rejected demand. It ends in a [KeyError] only for the
    identifier of an accepted demand that has no allocation. *)
Theorem report_finds_every_allocation self :
  allocations_match self ->
  (exists assigned,
     print_allocation_results self
     = ([ Resultados;
          RatioDeAceptacion (get_acceptance_ratio self);
          DemandasAceptadas (length (accepted_demands self))
                            (length (demands self));
          Asignaciones ]
          ++ assigned
          ++ map (fun d => Rechazada (demand_id d)) (rejected_demands self)
          ++ [RecursosRestantes; Matriz (substrate_network self)],
        Returned) /\
     Forall2 (fun d line => exists m, allocations self !! demand_id d = Some m /\
                                      line = Asignada (demand_id d) m)
             (accepted_demands self) assigned) /\
  forall p lines key,
    print_allocation_results p = (lines, KeyError key) ->
    exists d, d ∈ accepted_demands p /\ demand_id d = key /\
              allocations p !! key = None.
Proof.
  intros Hmatch. split.
  - pose proof (report_accepted_spec (allocations self) (accepted_demands self))
      as Hspec.
    unfold print_allocation_results.
    destruct (report_accepted (allocations self) (accepted_demands self))
      as [lines [|key]].
    + by exists lines.
    + destruct Hspec as (d & Hd & Hkey & Hnone). exfalso.
      apply not_elem_of_dom in Hnone. apply Hnone.
      rewrite Hmatch. apply elem_of_list_to_set, list_elem_of_In, in_map_iff.
      exists d. split; [done|]. by apply list_elem_of_In.
  - intros p lines key Hp.
    pose proof (report_accepted_spec (allocations p) (accepted_demands p))
      as Hspec.
    unfold print_allocation_results in Hp.
    destruct (report_accepted (allocations p) (accepted_demands p))
      as [lines' [|key']]; [done|].
    by simplify_eq.
Qed.

Lemma report_finds_every_allocation_witness :
  exists assigned,
    print_allocation_results (state (process_all_demands scenario_start))
    = ([ Resultados; RatioDeAceptacion (1 # 2)%Q; DemandasAceptadas 1 2;
         Asignaciones ]
         ++ assigned ++ [Rechazada 1]
         ++ [RecursosRestantes; Matriz (Some residual_example)],
       Returned) /\
    Forall2 (fun d line =>
               exists m,
                 allocations (state (process_all_demands scenario_start))
                   !! demand_id d = Some m /\
                 line = Asignada (demand_id d) m)
            [demand_B] assigned.
Proof.
  apply (report_finds_every_allocation
           (state (process_all_demands scenario_start))).
  unfold allocations_match. vm_compute. reflexivity.
Defined.
